(** * FetchLoader (src/utils/fetch-loader.ts): a shallow embedding

    The loader issues one GET request through the platform [fetch], races it
    against a one-shot timer, can be cancelled through an [AbortController]
    and reports through a bag of callbacks.  The embedding keeps the shape of
    the TypeScript source:

    - the fields of [FetchLoader] are the fields of the record [Loader];
    - every method and every closure handed to the platform ([setTimeout]
      callback, the two [then] handlers, the [catch] handler, the progress
      pump) is one function on the state;
    - what the platform does (a timer task runs, a promise is fulfilled or
      rejected, a body chunk is read) is an [Event]; [step] says when the
      event can happen and runs the handler the source registered for it;
    - calling a callback appends a [Notification] to a log; a callback is
      caller code, so it may return or raise. *)

From Stdlib Require Import ZArith String Ascii List Bool DecimalString Lia.
From Stdlib Require DecimalPos.
Import ListNotations.
Local Open Scope string_scope.
Local Open Scope Z_scope.

(* ================================================================== *)
(** ** Platform values *)

Module Js.

(** A value read from a field typed [number]: a number, [NaN], or
    [undefined] when the field was never assigned.  Numbers are integers
    here: byte counts and offsets are, and timestamps are only compared. *)
Inductive numeric := Undef | NaN | Num (z : Z).

(** A number is a double: an integer is held exactly up to [2^53] in
    magnitude, and rounded beyond to 53 significant bits, to the nearest,
    ties to the even one.  (Integers beyond the range of doubles, which
    become [Infinity], are out of the model.) *)
Definition round_double (z : Z) : Z :=
  let a := Z.abs z in
  if a <=? 2 ^ 53 then z
  else
    let sh := Z.log2 a - 52 in
    let q := Z.shiftr a sh in
    let r := a - Z.shiftl q sh in
    let half := Z.shiftl 1 (sh - 1) in
    let q' := if (half <? r) || ((r =? half) && Z.odd q) then q + 1 else q in
    Z.sgn z * Z.shiftl q' sh.

(** [Number.isSafeInteger(z)]. *)
Definition safe_integer (z : Z) : Prop := Z.abs z <= 2 ^ 53 - 1.

(** [a - b] on numbers that are integers. *)
Definition minus (a b : Z) : Z := round_double (a - b).

(** [Math.max(a, b)]: [NaN] as soon as one argument is not a number. *)
Definition Math_max (a b : numeric) : numeric :=
  match a, b with
  | Num x, Num y => Num (Z.max x y)
  | _, _ => NaN
  end.

(** [a + b] on numeric values, as used by [+=]. *)
Definition plus (a b : numeric) : numeric :=
  match a, b with
  | Num x, Num y => Num (x + y)
  | _, _ => NaN
  end.

(** [String(n)] for an integer [n]: its decimal digits, [-] in front of a
    negative one.  This is what JavaScript prints for an integer up to
    [2^53] in magnitude; for a larger double it prints the shortest digits
    that read back as the same double, and an exponent from [1e21] on,
    which this function does not: the statements that read the string
    bound the number. *)
Definition String_of_number (n : Z) : string :=
  NilZero.string_of_int (Z.to_int n).

(** String conversion of an optional numeric property in a [+]
    concatenation; a missing property is [undefined]. *)
Definition toString (v : option Z) : string :=
  match v with
  | Some n => String_of_number n
  | None => "undefined"
  end.

(** Truthiness of an optional numeric property: [undefined] and [0] are
    falsy. *)
Definition truthy (v : option Z) : bool :=
  match v with
  | Some n => negb (n =? 0)
  | None => false
  end.

(** [s || d] on strings: the empty string is falsy. *)
Definition or_string (s d : string) : string :=
  match s with
  | EmptyString => d
  | _ => s
  end.

(** [v || d] where [v] is a string or [null]. *)
Definition or_default (v : option string) (d : string) : string :=
  match v with
  | Some s => or_string s d
  | None => d
  end.

(** *** parseInt *)

Definition is_white (c : ascii) : bool :=
  let n := N_of_ascii c in
  ((9 <=? n) && (n <=? 13))%N || (n =? 32)%N.

Fixpoint skip_white (s : string) : string :=
  match s with
  | String c r => if is_white c then skip_white r else s
  | EmptyString => s
  end.

Definition digit_value (radix : Z) (c : ascii) : option Z :=
  let n := Z.of_N (N_of_ascii c) in
  let v :=
    if (48 <=? n) && (n <=? 57) then Some (n - 48)
    else if (97 <=? n) && (n <=? 122) then Some (n - 87)
    else if (65 <=? n) && (n <=? 90) then Some (n - 55)
    else None in
  match v with
  | Some d => if d <? radix then Some d else None
  | None => None
  end.

(** The longest prefix of digits, accumulated; [None] when there is none. *)
Fixpoint read_digits (radix : Z) (acc : option Z) (s : string) : option Z :=
  match s with
  | EmptyString => acc
  | String c r =>
      match digit_value radix c with
      | Some d =>
          read_digits radix
            (Some (match acc with Some a => a * radix + d | None => d end)) r
      | None => acc
      end
  end.

(** [parseInt(s)] without a radix argument: the integer read, as a
    double. *)
Definition parseInt (s : string) : numeric :=
  let s0 := skip_white s in
  let '(neg, s1) :=
    match s0 with
    | String "-" r => (true, r)
    | String "+" r => (false, r)
    | _ => (false, s0)
    end in
  let '(radix, s2) :=
    match s1 with
    | String "0" (String "x" r) => (16, r)
    | String "0" (String "X" r) => (16, r)
    | _ => (10, s1)
    end in
  match read_digits radix None s2 with
  | Some n => Num (round_double (if neg then - n else n))
  | None => NaN
  end.

(** *** Errors and completions *)

(** What the source reads from a caught value: [code], [message],
    [details].  [details] is the identity of the response a [FetchError]
    carries; other errors have none. *)
Record Error (D : Type) := mkError {
  code : option Z;
  message : string;
  details : option D
}.
Arguments mkError {D}.
Arguments code {D}.
Arguments message {D}.
Arguments details {D}.

(** The [TypeError] of reading a property of [undefined]. *)
Definition TypeError {D} (msg : string) : Error D := mkError None msg None.

(** *** Headers *)

Definition to_lower (c : ascii) : ascii :=
  let n := N_of_ascii c in
  if ((65 <=? n) && (n <=? 90))%N then ascii_of_N (n + 32) else c.

Fixpoint lowercase (s : string) : string :=
  match s with
  | EmptyString => EmptyString
  | String c r => String (to_lower c) (lowercase r)
  end.

(** A header name is an HTTP token. *)
Definition is_tchar (c : ascii) : bool :=
  let n := N_of_ascii c in
  (((48 <=? n) && (n <=? 57)) || ((65 <=? n) && (n <=? 90))
   || ((97 <=? n) && (n <=? 122)))%N
  || existsb (Ascii.eqb c)
       (list_ascii_of_string "!#$%&'*+-.^_`|~").

Definition valid_name (s : string) : bool :=
  match s with
  | EmptyString => false
  | _ => forallb is_tchar (list_ascii_of_string s)
  end.

Definition Headers := list (string * string).

Definition values_of (h : Headers) (name : string) : list string :=
  map snd
    (filter (fun kv => String.eqb (lowercase (fst kv)) (lowercase name)) h).

(** [headers.get(name)]: raises a [TypeError] on a name that is not a
    token; otherwise the values stored under the name (compared without
    case) joined with a comma, or [null]. *)
Definition Headers_get {D} (h : Headers) (name : string)
  : Error D + option string :=
  if valid_name name then
    inr (match values_of h name with
         | [] => None
         | vs => Some (String.concat ", " vs)
         end)
  else inl (TypeError "Invalid name").

End Js.
Import Js.

(* ================================================================== *)
(** ** Data model (src/types/loader) *)

Record LoaderContext := {
  url : string;
  responseType : string;
  rangeStart : option Z;
  rangeEnd : option Z
}.

Record LoaderConfiguration := {
  timeout : Z
}.

(** The signal of an [AbortController], named by the controller it belongs
    to; whether it is aborted is the controller's state. *)
Definition AbortSignal := nat.

Record AbortController := {
  ctl_signal : AbortSignal;
  ctl_aborted : bool
}.

Record InitParams := {
  method : string;
  mode : string;
  credentials : string;
  signal : option AbortSignal;
  headers : option Headers
}.

Record Request := {
  req_url : string;
  req_init : InitParams
}.

Record Response := {
  resp_url : string;
  status : Z;
  statusText : string;
  resp_headers : Headers;
  has_body : bool      (* [response.body] is not [null] *)
}.

(** [response.ok]: the status is in the range 200-299. *)
Definition ok (r : Response) : bool :=
  (200 <=? status r) && (status r <=? 299).

Definition JsError := Js.Error Response.

(** [new FetchError(message, code, details)]. *)
Definition FetchError (msg : string) (c : Z) (d : Response) : JsError :=
  mkError (Some c) msg (Some d).

(* ================================================================== *)
(** ** Request parameter builder *)

(** [new Headers({ Range: v })]. *)
Definition Range_headers (v : string) : Headers := [("Range", v)].

Definition getRequestParameters (context : LoaderContext)
    (sig : AbortSignal) : InitParams :=
  let initParams := {|
    method := "GET";
    mode := "cors";
    credentials := "same-origin";
    signal := Some sig;
    headers := None
  |} in
  if truthy (rangeEnd context) then
    {| method := method initParams;
       mode := mode initParams;
       credentials := credentials initParams;
       signal := signal initParams;
       headers := Some (Range_headers
         ("bytes=" ++ toString (rangeStart context) ++ "-"
          ++ match rangeEnd context with
             | Some e => String_of_number (minus e 1)
             | None => "NaN"
             end)) |}
  else initParams.

Definition getRequest (context : LoaderContext) (initParams : InitParams)
  : Request :=
  {| req_url := url context; req_init := initParams |}.

(* ================================================================== *)
(** ** Stats, callbacks, notifications *)

(** Modelled from the spec: the class [LoadStats] (src/loader/load-stats.ts,
    not among the sources).  [aborted] defaults to false, the three
    timestamps start unset, the byte counters start at 0. *)
Record LoaderStats := {
  aborted : bool;
  trequest : numeric;
  tfirst : numeric;
  tload : numeric;
  loaded : numeric;
  total : numeric
}.

Definition LoadStats_new : LoaderStats :=
  {| aborted := false; trequest := Undef; tfirst := Undef; tload := Undef;
     loaded := Num 0; total := Num 0 |}.

Definition set_aborted (b : bool) (s : LoaderStats) : LoaderStats :=
  {| aborted := b; trequest := trequest s; tfirst := tfirst s;
     tload := tload s; loaded := loaded s; total := total s |}.

Definition set_trequest (v : numeric) (s : LoaderStats) : LoaderStats :=
  {| aborted := aborted s; trequest := v; tfirst := tfirst s;
     tload := tload s; loaded := loaded s; total := total s |}.

Definition set_tfirst (v : numeric) (s : LoaderStats) : LoaderStats :=
  {| aborted := aborted s; trequest := trequest s; tfirst := v;
     tload := tload s; loaded := loaded s; total := total s |}.

Definition set_tload (v : numeric) (s : LoaderStats) : LoaderStats :=
  {| aborted := aborted s; trequest := trequest s; tfirst := tfirst s;
     tload := v; loaded := loaded s; total := total s |}.

Definition set_loaded (v : numeric) (s : LoaderStats) : LoaderStats :=
  {| aborted := aborted s; trequest := trequest s; tfirst := tfirst s;
     tload := tload s; loaded := v; total := total s |}.

Definition set_total (v : numeric) (s : LoaderStats) : LoaderStats :=
  {| aborted := aborted s; trequest := trequest s; tfirst := tfirst s;
     tload := tload s; loaded := loaded s; total := v |}.

(** What a callback does when the loader calls it: it returns, or it
    raises. *)
Inductive Behaviour := Returns | Raises (e : JsError).

Record LoaderCallbacks := {
  onSuccess : Behaviour;
  onProgress : option Behaviour;
  onError : Behaviour;
  onTimeout : Behaviour;
  onAbort : option Behaviour
}.

(** The decoded payload: [response.text()] or [response.arrayBuffer()]. *)
Inductive ResponseData :=
| Text (s : string)
| ArrayBuffer (b : list Byte.byte).

(** [responseData[LENGTH]]: [length] of a string, [byteLength] of a
    buffer. *)
Definition payload_length (d : ResponseData) : Z :=
  match d with
  | Text s => Z.of_nat (String.length s)
  | ArrayBuffer b => Z.of_nat (List.length b)
  end.

(** The decode branch taken at the end of the first [then] handler fixes
    the kind of the payload. *)
Definition decoded_as (isArrayBuffer : bool) (d : ResponseData) : bool :=
  match d with
  | Text _ => negb isArrayBuffer
  | ArrayBuffer _ => isArrayBuffer
  end.

(** One call of a callback, with the arguments the source passes (the stats
    object as it is at the call). *)
Inductive Notification :=
| OnSuccess (res_url : string) (data : ResponseData) (st : LoaderStats)
    (ctx : LoaderContext) (r : Response)
| OnProgress (st : LoaderStats) (ctx : LoaderContext)
    (value : list Byte.byte) (r : Response)
| OnError (err_code : option Z) (err_text : string) (ctx : LoaderContext)
    (err_details : option Response)
| OnTimeout (st : LoaderStats) (ctx : LoaderContext) (r : option Response)
| OnAbort (st : LoaderStats) (ctx : option LoaderContext)
    (r : option Response).

(* ================================================================== *)
(** ** The loader object and the platform around it *)

Definition TimerId := nat.

Record HlsConfig := {
  fetchSetup_opt : option (LoaderContext -> InitParams -> Request)
}.

Record Loader := {
  fetchSetup : LoaderContext -> InitParams -> Request;
  requestTimeout : option TimerId;
  request : option Request;
  response : option Response;
  controller : AbortController;
  context : option LoaderContext;
  config : option LoaderConfiguration;
  callbacks : option LoaderCallbacks;
  stats : LoaderStats
}.

(** State of the promise chain
    [fetch(request).then(..).then(..).catch(..)]. *)
Inductive Chain :=
| NoRequest        (* [load] has not been called *)
| AwaitResponse    (* [fetch(request)] is pending *)
| AwaitBody        (* the first handler returned the decode promise *)
| Settled.         (* the second handler or the catch handler has run *)

(** What the closures created by [load] captured. *)
Record Captured := {
  c_context : LoaderContext;
  c_callbacks : LoaderCallbacks;
  c_isArrayBuffer : bool
}.

Record World := {
  loader : Loader;
  captured : option Captured;
  timers : list TimerId;     (* scheduled, neither fired nor cleared *)
  next_timer : TimerId;
  chain : Chain;
  pump_response : option Response;  (* the pump is reading this response *)
  log : list Notification;
  escaped : list JsError     (* raised out of the loader's code *)
}.

Definition with_loader (l : Loader) (w : World) : World :=
  {| loader := l; captured := captured w; timers := timers w;
     next_timer := next_timer w; chain := chain w;
     pump_response := pump_response w; log := log w;
     escaped := escaped w |}.

Definition with_stats (s : LoaderStats) (l : Loader) : Loader :=
  {| fetchSetup := fetchSetup l; requestTimeout := requestTimeout l;
     request := request l; response := response l;
     controller := controller l; context := context l; config := config l;
     callbacks := callbacks l; stats := s |}.

Definition with_controller (c : AbortController) (l : Loader) : Loader :=
  {| fetchSetup := fetchSetup l; requestTimeout := requestTimeout l;
     request := request l; response := response l;
     controller := c; context := context l; config := config l;
     callbacks := callbacks l; stats := stats l |}.

Definition with_response (r : Response) (l : Loader) : Loader :=
  {| fetchSetup := fetchSetup l; requestTimeout := requestTimeout l;
     request := request l; response := Some r;
     controller := controller l; context := context l; config := config l;
     callbacks := callbacks l; stats := stats l |}.

Definition with_chain (c : Chain) (w : World) : World :=
  {| loader := loader w; captured := captured w; timers := timers w;
     next_timer := next_timer w; chain := c;
     pump_response := pump_response w; log := log w;
     escaped := escaped w |}.

Definition with_timers (t : list TimerId) (w : World) : World :=
  {| loader := loader w; captured := captured w; timers := t;
     next_timer := next_timer w; chain := chain w;
     pump_response := pump_response w; log := log w;
     escaped := escaped w |}.

Definition with_pump (p : option Response) (w : World) : World :=
  {| loader := loader w; captured := captured w; timers := timers w;
     next_timer := next_timer w; chain := chain w;
     pump_response := p; log := log w; escaped := escaped w |}.

Definition with_log (n : Notification) (w : World) : World :=
  {| loader := loader w; captured := captured w; timers := timers w;
     next_timer := next_timer w; chain := chain w;
     pump_response := pump_response w; log := log w ++ [n];
     escaped := escaped w |}.

Definition with_escaped (e : JsError) (w : World) : World :=
  {| loader := loader w; captured := captured w; timers := timers w;
     next_timer := next_timer w; chain := chain w;
     pump_response := pump_response w; log := log w;
     escaped := escaped w ++ [e] |}.

(** What a callback raises, if anything. *)
Definition raised (b : Behaviour) : option JsError :=
  match b with
  | Returns => None
  | Raises e => Some e
  end.

(** Calling a callback: the call is logged, and the callback returns or
    raises. *)
Definition call (n : Notification) (b : Behaviour) (w : World)
  : World * option JsError :=
  (with_log n w, raised b).

(** An exception nobody catches: it leaves the loader's code. *)
Definition uncaught (r : World * option JsError) : World :=
  match snd r with
  | Some e => with_escaped e (fst r)
  | None => fst r
  end.

Definition without (i : TimerId) (l : list TimerId) : list TimerId :=
  filter (fun j => negb (Nat.eqb i j)) l.

(** The timer [i] leaves the schedule: it was cleared, or it is a one-shot
    timer that fires now. *)
Definition unschedule (i : TimerId) (w : World) : World :=
  with_timers (without i (timers w)) w.

(** [clearTimeout(id)]: unschedules the timer; nothing to do for
    [undefined] or a timer that is not scheduled. *)
Definition clearTimeout (id : option TimerId) (w : World) : World :=
  match id with
  | Some i => unschedule i w
  | None => w
  end.

(* ================================================================== *)
(** ** class FetchLoader *)

(** [new FetchLoader(config)]: a fresh controller and fresh stats. *)
Definition constructor (cfg : HlsConfig) : Loader :=
  {| fetchSetup := match fetchSetup_opt cfg with
                   | Some f => f
                   | None => getRequest
                   end;
     requestTimeout := None;
     request := None;
     response := None;
     controller := {| ctl_signal := 0%nat; ctl_aborted := false |};
     context := None;
     config := None;
     callbacks := None;
     stats := LoadStats_new |}.

Definition abortInternal (l : Loader) : Loader :=
  let l1 := with_stats (set_aborted true (stats l)) l in
  with_controller
    {| ctl_signal := ctl_signal (controller l1); ctl_aborted := true |} l1.

Definition destroy (w : World) : World :=
  with_loader (abortInternal (loader w)) w.

(** [abort()]: the second component is the exception the call raises to its
    caller, if any.  Reading [onAbort] of [this.callbacks] raises a
    [TypeError] while [callbacks] is unassigned. *)
Definition abort (w : World) : World * option JsError :=
  let w1 := with_loader (abortInternal (loader w)) w in
  let this := loader w1 in
  match callbacks this with
  | None =>
      (w1, Some (TypeError "Cannot read properties of undefined"))
  | Some cbs =>
      match onAbort cbs with
      | Some f => call (OnAbort (stats this) (context this) (response this))
                    f w1
      | None => (w1, None)
      end
  end.

Definition getResponseHeader (this : Loader) (name : string)
  : JsError + option string :=
  match response this with
  | Some r =>
      match Headers_get (D := Response) (resp_headers r) name with
      | inr v => inr v
      | inl _ => inr None          (* caught: could not get header *)
      end
  | None => inr None
  end.

(** [load(context, config, callbacks)], called when the clock reads [now].
    It records the start time, builds the request, arms the timer and
    starts [fetch]; the handlers below are the closures it registers.
    The request factory is taken to return a request: a call of [load] in
    which it raises (as [new Request] does for a URL it refuses) ends
    before the timer is armed and [fetch] is called, and is not a load
    here. *)
Definition load (ctx : LoaderContext) (cfg : LoaderConfiguration)
    (cbs : LoaderCallbacks) (now : Z) (w : World) : World :=
  let this := loader w in
  let st := set_trequest (Num now) (stats this) in
  let initParams :=
    getRequestParameters ctx (ctl_signal (controller this)) in
  let isArrayBuffer := String.eqb (responseType ctx) "arraybuffer" in
  let id := next_timer w in
  {| loader :=
       {| fetchSetup := fetchSetup this;
          requestTimeout := Some id;
          request := Some (fetchSetup this ctx initParams);
          response := response this;
          controller := controller this;
          context := Some ctx;
          config := Some cfg;
          callbacks := Some cbs;
          stats := st |};
     captured := Some {| c_context := ctx; c_callbacks := cbs;
                         c_isArrayBuffer := isArrayBuffer |};
     timers := id :: timers w;
     next_timer := S id;
     chain := AwaitResponse;
     pump_response := pump_response w;
     log := log w;
     escaped := escaped w |}.

(** The [setTimeout] callback. *)
Definition on_timeout (c : Captured) (w : World) : World :=
  let w1 := with_loader (abortInternal (loader w)) w in
  uncaught
    (call (OnTimeout (stats (loader w1)) (c_context c)
             (response (loader w1)))
       (onTimeout (c_callbacks c)) w1).

(** The first [then] handler, run with the response when [fetch] is
    fulfilled.  The second component is what it throws, if anything. *)
Definition then_response (c : Captured) (r : Response) (now : Z)
    (w : World) : World * option JsError :=
  let w1 := with_loader (with_response r (loader w)) w in
  if negb (ok r) then
    (w1, Some (FetchError
                 (or_string (statusText r) "fetch, bad network response")
                 (status r) r))
  else
    let st := stats (loader w1) in
    let st1 := set_tfirst (Math_max (Num now) (trequest st)) st in
    let w2 := with_loader (with_stats st1 (loader w1)) w1 in
    match Headers_get (D := Response) (resp_headers r) "Content-Length" with
    | inl e => (w2, Some e)
    | inr v =>
        let st2 := set_total (parseInt (or_default v "0")) st1 in
        let w3 := with_loader (with_stats st2 (loader w2)) w2 in
        match onProgress (c_callbacks c) with
        | Some _ =>
            (* [response.clone().body.getReader()]: a [TypeError] when
               the body is [null]; otherwise the pump starts *)
            if has_body r
            then (with_chain AwaitBody (with_pump (Some r) w3), None)
            else (w3, Some (TypeError "Cannot read properties of null"))
        | None => (with_chain AwaitBody w3, None)
        end
    end.

(** The second [then] handler, run with the decoded payload.  The second
    component is what it throws, if anything. *)
Definition then_data (c : Captured) (d : ResponseData) (now : Z) (w : World)
  : World * option JsError :=
  let w1 := clearTimeout (requestTimeout (loader w)) w in
  let st := stats (loader w1) in
  let st1 := set_tload (Math_max (Num now) (tfirst st)) st in
  let len := Num (payload_length d) in
  let st2 := set_loaded len (set_total len st1) in
  let w2 := with_loader (with_stats st2 (loader w1)) w1 in
  match response (loader w) with
  | Some r =>
      call (OnSuccess (resp_url r) d st2 (c_context c) r)
        (onSuccess (c_callbacks c)) (with_chain Settled w2)
  | None =>
      (w2, Some (TypeError "Cannot read properties of undefined"))
  end.

(** The [catch] handler at the end of the chain. *)
Definition on_catch (c : Captured) (error : JsError) (w : World) : World :=
  let w1 := with_chain Settled (clearTimeout (requestTimeout (loader w)) w) in
  if aborted (stats (loader w1)) then w1
  else
    uncaught
      (call (OnError (code error) (message error) (c_context c)
               (details error))
         (onError (c_callbacks c)) w1).

(** What a [then] handler throws travels down the chain to the [catch]
    handler. *)
Definition caught (c : Captured) (r : World * option JsError) : World :=
  match snd r with
  | Some e => on_catch c e (fst r)
  | None => fst r
  end.

(** One turn of the pump: a chunk was read from the cloned body.  An
    exception of [onProgress] ends the pump silently. *)
Definition on_chunk (c : Captured) (r : Response) (value : list Byte.byte)
    (w : World) : World :=
  let st := stats (loader w) in
  let st1 :=
    set_loaded (plus (loaded st) (Num (Z.of_nat (List.length value)))) st in
  let w1 := with_loader (with_stats st1 (loader w)) w in
  match onProgress (c_callbacks c) with
  | Some f =>
      let res := call (OnProgress st1 (c_context c) value r) f w1 in
      match snd res with
      | Some _ => with_pump None (fst res)
      | None => fst res
      end
  | None => with_pump None w1
  end.

(* ================================================================== *)
(** ** Events *)

Inductive Event :=
| Load (ctx : LoaderContext) (cfg : LoaderConfiguration)
    (cbs : LoaderCallbacks) (now : Z)   (* the caller calls [load] *)
| Abort                                 (* the caller calls [abort] *)
| Destroy                               (* the caller calls [destroy] *)
| TimerFires (id : TimerId)             (* the timer task runs *)
| Fulfilled (r : Response) (now : Z)    (* [fetch] is fulfilled *)
| Decoded (d : ResponseData) (now : Z)  (* the decode promise is fulfilled *)
| Rejected (e : JsError)                (* the pending promise is rejected *)
| Chunk (value : list Byte.byte)        (* the pump read a chunk *)
| PumpEnds.                             (* the pump read [done] or failed *)

(** The transport observes the signal it was given: once the controller is
    aborted, a request that carries its signal is only ever rejected. *)
Definition cancelled (w : World) : bool :=
  ctl_aborted (controller (loader w))
  && match request (loader w) with
     | Some rq =>
         match signal (req_init rq) with
         | Some s => Nat.eqb s (ctl_signal (controller (loader w)))
         | None => false
         end
     | None => false
     end.

(** [step w e] is [None] when [e] cannot happen in [w].  A loader object
    runs one load: [new FetchLoader] is the only place that makes a
    controller and stats, and the callers make one loader per request;
    [load] itself does not check it. *)
Definition step (w : World) (e : Event) : option World :=
  match e with
  | Load ctx cfg cbs now =>
      match chain w with
      | NoRequest => Some (load ctx cfg cbs now w)
      | _ => None
      end
  | Abort => Some (uncaught (abort w))
  | Destroy => Some (destroy w)
  | TimerFires id =>
      match captured w with
      | Some c =>
          if existsb (Nat.eqb id) (timers w)
          then Some (on_timeout c (unschedule id w))
          else None
      | None => None
      end
  | Fulfilled r now =>
      match chain w, captured w with
      | AwaitResponse, Some c =>
          if cancelled w then None
          else Some (caught c (then_response c r now w))
      | _, _ => None
      end
  | Decoded d now =>
      match chain w, captured w with
      | AwaitBody, Some c =>
          if cancelled w || negb (decoded_as (c_isArrayBuffer c) d)
          then None
          else Some (caught c (then_data c d now w))
      | _, _ => None
      end
  | Rejected e =>
      match chain w, captured w with
      | AwaitResponse, Some c | AwaitBody, Some c => Some (on_catch c e w)
      | _, _ => None
      end
  | Chunk value =>
      match pump_response w, captured w with
      | Some r, Some c => Some (on_chunk c r value w)
      | _, _ => None
      end
  | PumpEnds =>
      match pump_response w with
      | Some _ => Some (with_pump None w)
      | None => None
      end
  end.

Fixpoint run (w : World) (tr : list Event) : option World :=
  match tr with
  | [] => Some w
  | e :: tr' =>
      match step w e with
      | Some w' => run w' tr'
      | None => None
      end
  end.

(** The world right after [new FetchLoader(cfg)]. *)
Definition boot (cfg : HlsConfig) : World :=
  {| loader := constructor cfg;
     captured := None;
     timers := [];
     next_timer := 1%nat;
     chain := NoRequest;
     pump_response := None;
     log := [];
     escaped := [] |}.

(* ================================================================== *)
(** ** Vocabulary of the properties *)

Definition is_success (n : Notification) : bool :=
  match n with OnSuccess _ _ _ _ _ => true | _ => false end.

Definition is_error (n : Notification) : bool :=
  match n with OnError _ _ _ _ => true | _ => false end.

Definition is_timeout (n : Notification) : bool :=
  match n with OnTimeout _ _ _ => true | _ => false end.

Definition is_abort (n : Notification) : bool :=
  match n with OnAbort _ _ _ => true | _ => false end.

(** The terminal family: [onSuccess], [onError], [onTimeout]. *)
Definition is_terminal (n : Notification) : bool :=
  is_success n || is_error n || is_timeout n.

(** The reader of the pump can be made: [onProgress] is not registered
    (no reader is asked for), or the response has a body. *)
Definition reader_ok (c : Captured) (r : Response) : bool :=
  match onProgress (c_callbacks c) with
  | Some _ => has_body r
  | None => true
  end.

(** How many calls of a kind the log has. *)
Definition count (p : Notification -> bool) (l : list Notification) : nat :=
  List.length (filter p l).

(** What [getResponseHeader] finds in a response: the values stored under
    the name, joined; nothing when the name is not a header name or no
    header has it. *)
Definition header_value (r : Response) (name : string) : option string :=
  if valid_name name then
    match values_of (resp_headers r) name with
    | [] => None
    | vs => Some (String.concat ", " vs)
    end
  else None.

(** [a <= b] between two timestamps that are both set. *)
Definition le_num (a b : numeric) : Prop :=
  match a, b with
  | Num x, Num y => x <= y
  | _, _ => False
  end.

(** The timestamps that are set are in order. *)
Definition ordered (s : LoaderStats) : Prop :=
  (tfirst s = Undef \/ le_num (trequest s) (tfirst s))
  /\ (tload s = Undef \/ le_num (tfirst s) (tload s)).

(** Which timestamps are set in which state of the chain. *)
Definition TimeInv (w : World) : Prop :=
  let s := stats (loader w) in
  match chain w with
  | NoRequest => trequest s = Undef /\ tfirst s = Undef /\ tload s = Undef
  | AwaitResponse =>
      (exists t, trequest s = Num t) /\ tfirst s = Undef /\ tload s = Undef
  | AwaitBody => le_num (trequest s) (tfirst s) /\ tload s = Undef
  | Settled => ordered s
  end.

(** The only timer ever scheduled is [this.requestTimeout]; none is before
    [load] and none is left once the chain has settled. *)
Definition TimerInv (w : World) : Prop :=
  (chain w = NoRequest -> timers w = [])
  /\ (forall id, In id (timers w) -> requestTimeout (loader w) = Some id)
  /\ (chain w = Settled -> timers w = []).

(** A request factory that passes the signal of [initParams] on, as
    [getRequest] does. *)
Definition keeps_signal (f : LoaderContext -> InitParams -> Request) : Prop :=
  forall ctx ip, signal (req_init (f ctx ip)) = signal ip.

(** The request in flight carries the signal of this loader's controller. *)
Definition signal_attached (w : World) : Prop :=
  exists rq, request (loader w) = Some rq
             /\ signal (req_init rq) = Some (ctl_signal (controller (loader w))).

(** A caller whose [onSuccess] callback returns. *)
Definition polite (e : Event) : Prop :=
  match e with
  | Load _ _ cbs _ => onSuccess cbs = Returns
  | _ => True
  end.

(** An event other than the calls of [abort()] and [destroy()]. *)
Definition uninterrupted (e : Event) : Prop := e <> Abort /\ e <> Destroy.

(** What [load] leaves in place for the rest of the load: the request
    carries the controller's signal, the closures captured callbacks whose
    [onSuccess] returns, and the two abort flags go together. *)
Definition StaticInv (w : World) : Prop :=
  keeps_signal (fetchSetup (loader w))
  /\ aborted (stats (loader w)) = ctl_aborted (controller (loader w))
  /\ (chain w = NoRequest -> callbacks (loader w) = None)
  /\ (chain w <> NoRequest ->
      signal_attached w
      /\ exists c, captured w = Some c /\ onSuccess (c_callbacks c) = Returns).

(** No call of the terminal family was made yet, or one was made: then no
    timer is scheduled, and the chain has settled or the load is marked
    aborted. *)
Definition CountInv (w : World) : Prop :=
  count is_terminal (log w) = 0%nat
  \/ (count is_terminal (log w) = 1%nat
      /\ timers w = []
      /\ chain w <> NoRequest
      /\ (chain w = Settled \/ aborted (stats (loader w)) = true)).

(** A response is there while the payload is awaited, and [onSuccess] is
    only called by the handler that settles the chain. *)
Definition FlowInv (w : World) : Prop :=
  (chain w = AwaitBody -> exists r, response (loader w) = Some r)
  /\ (chain w <> Settled -> count is_success (log w) = 0%nat).

(** What holds of every world a loader reaches. *)
Definition Reachable (w : World) : Prop :=
  TimerInv w /\ TimeInv w /\ FlowInv w.

(** *** Sample values *)

Definition default_config : HlsConfig := {| fetchSetup_opt := None |}.

Definition seg_context : LoaderContext :=
  {| url := "https://x/seg.ts"; responseType := "arraybuffer";
     rangeStart := Some 100; rangeEnd := Some 200 |}.

Definition text_context : LoaderContext :=
  {| url := "https://x/list.m3u8"; responseType := "text";
     rangeStart := None; rangeEnd := None |}.

Definition cfg5000 : LoaderConfiguration := {| timeout := 5000 |}.

Definition all_callbacks : LoaderCallbacks :=
  {| onSuccess := Returns; onProgress := Some Returns; onError := Returns;
     onTimeout := Returns; onAbort := Some Returns |}.

Definition resp (st : Z) (txt : string) (h : Headers) : Response :=
  {| resp_url := "https://x/seg.ts"; status := st; statusText := txt;
     resp_headers := h; has_body := true |}.

(** A response without a body, as for the status 204. *)
Definition resp_no_body (st : Z) (txt : string) (h : Headers) : Response :=
  {| resp_url := "https://x/seg.ts"; status := st; statusText := txt;
     resp_headers := h; has_body := false |}.

Definition zeros (n : nat) : list Byte.byte := repeat Byte.x00 n.

Definition load_seg : Event := Load seg_context cfg5000 all_callbacks 10.

(** The world after a trace, from a loader with the default request
    factory. *)
Definition after (tr : list Event) : World :=
  match run (boot default_config) tr with
  | Some w => w
  | None => boot default_config
  end.

Definition aborted_error : JsError :=
  mkError (Some 20) "The user aborted a request." None.

Definition cleared (id : option TimerId) (l : list TimerId) : list TimerId :=
  match id with
  | Some i => without i l
  | None => l
  end.

Definition opt_list {A : Type} (o : option A) : list A :=
  match o with
  | Some a => [a]
  | None => []
  end.


(* ================================================================== *)
(** ** Vocabulary of the further properties *)

Definition is_progress (n : Notification) : bool :=
  match n with OnProgress _ _ _ _ => true | _ => false end.

(** The context a callback was called with; [onAbort] is passed
    [this.context], which is unassigned before [load]. *)
Definition ctx_of (n : Notification) : option LoaderContext :=
  match n with
  | OnSuccess _ _ _ c _ => Some c
  | OnProgress _ c _ _ => Some c
  | OnError _ _ c _ => Some c
  | OnTimeout _ c _ => Some c
  | OnAbort _ c _ => c
  end.

(** The number of bytes in a sequence of chunks. *)
Definition total_length (vs : list (list Byte.byte)) : Z :=
  fold_right (fun v acc => Z.of_nat (List.length v) + acc) 0 vs.

(** What [load] assigns once and for all. *)
Record Bound := {
  b_context : option LoaderContext;
  b_config : option LoaderConfiguration;
  b_callbacks : option LoaderCallbacks;
  b_request : option Request;
  b_requestTimeout : option TimerId;
  b_captured : option Captured;
  b_trequest : numeric;
  b_signal : AbortSignal
}.

Definition bound (w : World) : Bound :=
  {| b_context := context (loader w);
     b_config := config (loader w);
     b_callbacks := callbacks (loader w);
     b_request := request (loader w);
     b_requestTimeout := requestTimeout (loader w);
     b_captured := captured w;
     b_trequest := trequest (stats (loader w));
     b_signal := ctl_signal (controller (loader w)) |}.

(** Before [load] nothing was called and nothing runs; afterwards the
    closures and the fields agree on context and callbacks, every call
    carried that context, and the pump only runs for a registered
    [onProgress]. *)
Definition CtxInv (w : World) : Prop :=
  match chain w with
  | NoRequest =>
      log w = [] /\ captured w = None /\ callbacks (loader w) = None
      /\ pump_response w = None
  | _ =>
      exists c,
        captured w = Some c
        /\ context (loader w) = Some (c_context c)
        /\ callbacks (loader w) = Some (c_callbacks c)
        /\ Forall (fun n => ctx_of n = Some (c_context c)) (log w)
        /\ (onProgress (c_callbacks c) = None ->
            pump_response w = None /\ count is_progress (log w) = 0%nat)
  end.

(** The two abort flags go together and at most one timer is scheduled. *)
Definition FlagInv (w : World) : Prop :=
  aborted (stats (loader w)) = ctl_aborted (controller (loader w))
  /\ (List.length (timers w) <= 1)%nat.

(** The number a string of decimal digits denotes, after the digits [acc]
    read so far. *)
Fixpoint uint_value (d : Decimal.uint) (acc : Z) : Z :=
  match d with
  | Decimal.Nil => acc
  | Decimal.D0 l => uint_value l (acc * 10 + 0)
  | Decimal.D1 l => uint_value l (acc * 10 + 1)
  | Decimal.D2 l => uint_value l (acc * 10 + 2)
  | Decimal.D3 l => uint_value l (acc * 10 + 3)
  | Decimal.D4 l => uint_value l (acc * 10 + 4)
  | Decimal.D5 l => uint_value l (acc * 10 + 5)
  | Decimal.D6 l => uint_value l (acc * 10 + 6)
  | Decimal.D7 l => uint_value l (acc * 10 + 7)
  | Decimal.D8 l => uint_value l (acc * 10 + 8)
  | Decimal.D9 l => uint_value l (acc * 10 + 9)
  end.

(** *** Callbacks that raise *)

Definition raising_progress : LoaderCallbacks :=
  {| onSuccess := Returns; onProgress := Some (Raises aborted_error);
     onError := Returns; onTimeout := Returns; onAbort := None |}.

Definition boom : JsError := mkError None "boom" None.

Definition raising_success : LoaderCallbacks :=
  {| onSuccess := Raises boom; onProgress := None;
     onError := Returns; onTimeout := Returns; onAbort := None |}.

(* ================================================================== *)
(** ** The request parameter builder *)

Example range_100_200 :
  headers (getRequestParameters seg_context 0%nat)
  = Some [("Range", "bytes=100-199")].
Proof. reflexivity. Qed.

Example no_range_without_end :
  headers (getRequestParameters text_context 0%nat) = None.
Proof. reflexivity. Qed.

Example parseInt_100 : parseInt "100" = Num 100.
Proof. reflexivity. Qed.

Example parseInt_junk : parseInt "abc" = NaN.
Proof. reflexivity. Qed.

Example parseInt_prefix : parseInt " 42px" = Num 42.
Proof. reflexivity. Qed.

Lemma truthy_nonzero (e : Z) : e <> 0 -> truthy (Some e) = true.
Proof.
  intros He. unfold truthy.
  destruct (Z.eqb_spec e 0) as [E | _]; [contradiction | reflexivity].
Qed.

Lemma getRequestParameters_fixed (ctx : LoaderContext) (sig : AbortSignal) :
  method (getRequestParameters ctx sig) = "GET"
  /\ mode (getRequestParameters ctx sig) = "cors"
  /\ credentials (getRequestParameters ctx sig) = "same-origin"
  /\ signal (getRequestParameters ctx sig) = Some sig.
Proof.
  unfold getRequestParameters.
  destruct (truthy (rangeEnd ctx)); simpl; repeat split; reflexivity.
Qed.

Lemma round_double_exact (z : Z) : Z.abs z <= 2 ^ 53 -> round_double z = z.
Proof.
  intros Hz. unfold round_double.
  destruct (Z.leb_spec (Z.abs z) (2 ^ 53)) as [_ | Hgt];
    [reflexivity | lia].
Qed.

Lemma minus_one_exact (e : Z) : safe_integer e -> minus e 1 = e - 1.
Proof.
  unfold safe_integer, minus. intros He. apply round_double_exact. lia.
Qed.

Lemma getRequestParameters_nonzero (ctx : LoaderContext) (sig : AbortSignal)
    (e : Z) :
  rangeEnd ctx = Some e -> e <> 0 ->
  headers (getRequestParameters ctx sig)
  = Some [("Range",
           "bytes=" ++ toString (rangeStart ctx) ++ "-"
           ++ String_of_number (minus e 1))].
Proof.
  intros He Hnz. unfold getRequestParameters.
  rewrite He, (truthy_nonzero e Hnz). reflexivity.
Qed.

(** Beyond [2^53] the subtraction is rounded: the end [2^53 + 2] gives
    the header of [2^53], not of [2^53 + 1]. *)
Example range_end_rounded :
  headers (getRequestParameters
             {| url := "https://x/seg.ts"; responseType := "arraybuffer";
                rangeStart := Some 0;
                rangeEnd := Some 9007199254740994 |} 0%nat)
  = Some [("Range", "bytes=0-9007199254740992")].
Proof. vm_compute. reflexivity. Qed.

(** C3.  For a byte range [rangeStart < rangeEnd] of valid offsets (not
    negative, and safe integers, so that [rangeEnd - 1] is a number the
    code can compute and print), the builder returns the header
    [Range: bytes=<rangeStart>-<rangeEnd-1>]; for every context the method
    is GET and the given signal is attached; without [rangeEnd] there is no
    header. *)
Theorem getRequestParameters_range (ctx : LoaderContext) (sig : AbortSignal) :
  method (getRequestParameters ctx sig) = "GET"
  /\ signal (getRequestParameters ctx sig) = Some sig
  /\ (forall s e : Z,
        rangeStart ctx = Some s -> rangeEnd ctx = Some e ->
        0 <= s -> s < e -> safe_integer e ->
        headers (getRequestParameters ctx sig)
        = Some [("Range",
                 "bytes=" ++ String_of_number s ++ "-"
                 ++ String_of_number (e - 1))])
  /\ (rangeEnd ctx = None -> headers (getRequestParameters ctx sig) = None).
Proof.
  destruct (getRequestParameters_fixed ctx sig) as (Hm & _ & _ & Hs).
  repeat split; try assumption.
  - intros s e Hs' He Hpos Hlt Hsafe.
    rewrite (getRequestParameters_nonzero ctx sig e He) by lia.
    rewrite Hs', (minus_one_exact e Hsafe). reflexivity.
  - intros Hnone. unfold getRequestParameters. rewrite Hnone. reflexivity.
Qed.

Lemma getRequestParameters_range_witness :
  headers (getRequestParameters seg_context 7%nat)
  = Some [("Range", "bytes=100-199")].
Proof.
  apply (proj1 (proj2 (proj2 (getRequestParameters_range seg_context 7%nat)))
           100 200);
    [reflexivity | reflexivity | lia | lia | unfold safe_integer; simpl; lia].
Defined.

(** C10.  With [rangeEnd] equal to 0 the builder adds no header, whatever
    [rangeStart] is: the request is a plain GET of the whole resource. *)
Theorem getRequestParameters_zero_end (ctx : LoaderContext)
    (sig : AbortSignal) :
  rangeEnd ctx = Some 0 ->
  headers (getRequestParameters ctx sig) = None
  /\ method (getRequestParameters ctx sig) = "GET"
  /\ getRequest ctx (getRequestParameters ctx sig)
     = {| req_url := url ctx;
          req_init := {| method := "GET"; mode := "cors";
                         credentials := "same-origin"; signal := Some sig;
                         headers := None |} |}.
Proof.
  intros H0. unfold getRequest, getRequestParameters. rewrite H0. simpl.
  repeat split; reflexivity.
Qed.

Lemma getRequestParameters_zero_end_witness :
  headers (getRequestParameters
             {| url := "https://x/seg.ts"; responseType := "arraybuffer";
                rangeStart := Some 100; rangeEnd := Some 0 |} 0%nat)
  = None.
Proof.
  apply (getRequestParameters_zero_end
           {| url := "https://x/seg.ts"; responseType := "arraybuffer";
              rangeStart := Some 100; rangeEnd := Some 0 |} 0%nat).
  reflexivity.
Defined.

(** ** The handlers, field by field *)

Lemma on_timeout_eq (c : Captured) (w : World) :
  on_timeout c w
  = {| loader := abortInternal (loader w);
       captured := captured w;
       timers := timers w;
       next_timer := next_timer w;
       chain := chain w;
       pump_response := pump_response w;
       log := log w ++ [OnTimeout (set_aborted true (stats (loader w)))
                          (c_context c) (response (loader w))];
       escaped := escaped w ++ opt_list (raised (onTimeout (c_callbacks c))) |}.
Proof.
  unfold on_timeout, uncaught, call. simpl.
  destruct (raised (onTimeout (c_callbacks c))); simpl;
    [| rewrite app_nil_r]; reflexivity.
Qed.

Lemma on_catch_eq (c : Captured) (e : JsError) (w : World) :
  on_catch c e w
  = {| loader := loader w;
       captured := captured w;
       timers := cleared (requestTimeout (loader w)) (timers w);
       next_timer := next_timer w;
       chain := Settled;
       pump_response := pump_response w;
       log := log w ++ (if aborted (stats (loader w)) then []
                        else [OnError (code e) (message e) (c_context c)
                                (details e)]);
       escaped := escaped w ++ (if aborted (stats (loader w)) then []
                                else opt_list (raised (onError (c_callbacks c)))) |}.
Proof.
  unfold on_catch, uncaught, call, clearTimeout, unschedule, cleared.
  destruct w as [l cp ts nt ch pr lg es]. simpl.
  destruct (requestTimeout l); simpl;
    destruct (aborted (stats l)); simpl; rewrite ?app_nil_r;
    try reflexivity;
    destruct (raised (onError (c_callbacks c))); simpl; rewrite ?app_nil_r;
    reflexivity.
Qed.

Lemma abort_eq (w : World) :
  uncaught (abort w)
  = {| loader := abortInternal (loader w);
       captured := captured w;
       timers := timers w;
       next_timer := next_timer w;
       chain := chain w;
       pump_response := pump_response w;
       log := log w ++
              match callbacks (loader w) with
              | Some cbs =>
                  match onAbort cbs with
                  | Some _ => [OnAbort (set_aborted true (stats (loader w)))
                                 (context (loader w)) (response (loader w))]
                  | None => []
                  end
              | None => []
              end;
       escaped := escaped w ++
              match callbacks (loader w) with
              | Some cbs =>
                  match onAbort cbs with
                  | Some f => opt_list (raised f)
                  | None => []
                  end
              | None => [TypeError "Cannot read properties of undefined"]
              end |}.
Proof.
  unfold abort, uncaught, call.
  destruct w as [l cp ts nt ch pr lg es]. simpl.
  destruct (callbacks l) as [cbs |]; simpl; rewrite ?app_nil_r;
    [| reflexivity].
  destruct (onAbort cbs) as [f |]; simpl; rewrite ?app_nil_r;
    [| reflexivity].
  destruct (raised f); simpl; rewrite ?app_nil_r; reflexivity.
Qed.

Lemma then_response_bad (c : Captured) (r : Response) (now : Z) (w : World) :
  ok r = false ->
  then_response c r now w
  = (with_loader (with_response r (loader w)) w,
     Some (FetchError (or_string (statusText r) "fetch, bad network response")
             (status r) r)).
Proof. intros Hok. unfold then_response. rewrite Hok. reflexivity. Qed.

Lemma then_response_ok (c : Captured) (r : Response) (now : Z) (w : World) :
  ok r = true -> reader_ok c r = true ->
  then_response c r now w
  = ({| loader :=
          with_stats
            (set_total
               (parseInt (or_default (header_value r "Content-Length") "0"))
               (set_tfirst (Math_max (Num now) (trequest (stats (loader w))))
                  (stats (loader w))))
            (with_response r (loader w));
        captured := captured w;
        timers := timers w;
        next_timer := next_timer w;
        chain := AwaitBody;
        pump_response := match onProgress (c_callbacks c) with
                         | Some _ => Some r
                         | None => pump_response w
                         end;
        log := log w;
        escaped := escaped w |}, None).
Proof.
  intros Hok Hrd. unfold then_response, reader_ok in *. rewrite Hok. simpl.
  destruct (onProgress (c_callbacks c)); [rewrite Hrd |]; reflexivity.
Qed.

Lemma then_response_null (c : Captured) (r : Response) (now : Z)
    (w : World) :
  ok r = true -> reader_ok c r = false ->
  then_response c r now w
  = ({| loader :=
          with_stats
            (set_total
               (parseInt (or_default (header_value r "Content-Length") "0"))
               (set_tfirst (Math_max (Num now) (trequest (stats (loader w))))
                  (stats (loader w))))
            (with_response r (loader w));
        captured := captured w;
        timers := timers w;
        next_timer := next_timer w;
        chain := chain w;
        pump_response := pump_response w;
        log := log w;
        escaped := escaped w |},
     Some (TypeError "Cannot read properties of null")).
Proof.
  intros Hok Hrd. unfold then_response, reader_ok in *. rewrite Hok. simpl.
  destruct w as [l cp ts nt ch pr lg es]. simpl.
  destruct (onProgress (c_callbacks c)); [rewrite Hrd; reflexivity |].
  discriminate.
Qed.

Lemma then_data_eq (c : Captured) (d : ResponseData) (now : Z) (w : World) :
  then_data c d now w
  = ({| loader :=
          with_stats
            (set_loaded (Num (payload_length d))
               (set_total (Num (payload_length d))
                  (set_tload (Math_max (Num now) (tfirst (stats (loader w))))
                     (stats (loader w)))))
            (loader w);
        captured := captured w;
        timers := cleared (requestTimeout (loader w)) (timers w);
        next_timer := next_timer w;
        chain := match response (loader w) with
                 | Some _ => Settled
                 | None => chain w
                 end;
        pump_response := pump_response w;
        log := log w ++
               match response (loader w) with
               | Some r =>
                   [OnSuccess (resp_url r) d
                      (set_loaded (Num (payload_length d))
                         (set_total (Num (payload_length d))
                            (set_tload
                               (Math_max (Num now)
                                  (tfirst (stats (loader w))))
                               (stats (loader w)))))
                      (c_context c) r]
               | None => []
               end;
        escaped := escaped w |},
     match response (loader w) with
     | Some _ => raised (onSuccess (c_callbacks c))
     | None => Some (TypeError "Cannot read properties of undefined")
     end).
Proof.
  unfold then_data, call, clearTimeout, unschedule, cleared.
  destruct w as [l cp ts nt ch pr lg es]. simpl.
  destruct (requestTimeout l); simpl;
    destruct (response l); simpl; rewrite ?app_nil_r; reflexivity.
Qed.

Lemma on_chunk_eq (c : Captured) (r : Response) (v : list Byte.byte)
    (w : World) :
  on_chunk c r v w
  = {| loader :=
         with_stats
           (set_loaded (plus (loaded (stats (loader w)))
                          (Num (Z.of_nat (List.length v))))
              (stats (loader w)))
           (loader w);
       captured := captured w;
       timers := timers w;
       next_timer := next_timer w;
       chain := chain w;
       pump_response := match onProgress (c_callbacks c) with
                        | Some f => match raised f with
                                    | Some _ => None
                                    | None => pump_response w
                                    end
                        | None => None
                        end;
       log := log w ++
              match onProgress (c_callbacks c) with
              | Some _ =>
                  [OnProgress
                     (set_loaded (plus (loaded (stats (loader w)))
                                    (Num (Z.of_nat (List.length v))))
                        (stats (loader w)))
                     (c_context c) v r]
              | None => []
              end;
       escaped := escaped w |}.
Proof.
  unfold on_chunk, call.
  destruct w as [l cp ts nt ch pr lg es]. simpl.
  destruct (onProgress (c_callbacks c)) as [f |]; simpl;
    rewrite ?app_nil_r; [| reflexivity].
  destruct (raised f); reflexivity.
Qed.

(** ** Proof steps shared by the invariants *)

Ltac break_match_hyp H :=
  repeat match type of H with
  | context [match ?x with _ => _ end] =>
      let E := fresh "E" in destruct x eqn:E; try discriminate H
  end.

(** Inverts [H : step w e = Some w'] once [e] is a constructor. *)
Ltac step_inv H :=
  unfold step in H; break_match_hyp H; injection H as <-.

(** Rewrites the handlers in the goal to their field-by-field form; the
    first handler splits on [response.ok] and on whether the reader of the
    pump can be made, the second on what it throws. *)
Ltac handlers :=
  try match goal with
      | |- context [then_response ?c ?r ?n ?w] =>
          let Hok := fresh "Hok" in
          let Hrd := fresh "Hrd" in
          destruct (ok r) eqn:Hok;
          [destruct (reader_ok c r) eqn:Hrd;
           [rewrite (then_response_ok c r n w Hok Hrd)
           | rewrite (then_response_null c r n w Hok Hrd)]
          | rewrite (then_response_bad c r n w Hok)]
      end;
  try match goal with
      | |- context [then_data ?c ?d ?n ?w] =>
          rewrite (then_data_eq c d n w);
          let Hr := fresh "Hresp" in
          let Hs := fresh "Hsucc" in
          destruct (response (loader w)) eqn:Hr;
          [destruct (onSuccess (c_callbacks c)) eqn:Hs |]
      end;
  unfold caught, destroy, unschedule, load; simpl;
  rewrite ?on_timeout_eq, ?on_catch_eq, ?abort_eq, ?on_chunk_eq; simpl.

Lemma run_preserves (P : World -> Prop) (Q : Event -> Prop) :
  (forall w e w', Q e -> P w -> step w e = Some w' -> P w') ->
  forall tr w w', Forall Q tr -> P w -> run w tr = Some w' -> P w'.
Proof.
  intros Hstep tr. induction tr as [| e tr IH]; intros w w' HQ HP Hrun.
  - simpl in Hrun. injection Hrun as <-. exact HP.
  - simpl in Hrun. destruct (step w e) as [w1 |] eqn:E; [| discriminate].
    inversion HQ as [| ? ? Hq Hqs]; subst.
    apply (IH w1 w' Hqs); [| exact Hrun].
    exact (Hstep w e w1 Hq HP E).
Qed.

Lemma Forall_any (tr : list Event) : Forall (fun _ => True) tr.
Proof. induction tr; constructor; auto. Qed.

Lemma run_app (tr1 tr2 : list Event) (w : World) :
  run w (tr1 ++ tr2)
  = match run w tr1 with
    | Some w1 => run w1 tr2
    | None => None
    end.
Proof.
  revert w. induction tr1 as [| e tr1 IH]; intros w; simpl; [reflexivity |].
  destruct (step w e); [apply IH | reflexivity].
Qed.

(** ** The timer *)

Lemma without_all (i : TimerId) (l : list TimerId) :
  (forall j, In j l -> j = i) -> without i l = [].
Proof.
  intros Hall. unfold without. induction l as [| j l IH]; [reflexivity |].
  simpl. rewrite (Hall j (or_introl eq_refl)), Nat.eqb_refl. simpl.
  apply IH. intros k Hin. apply Hall. right. exact Hin.
Qed.

Lemma in_without (i j : TimerId) (l : list TimerId) :
  In j (without i l) -> In j l.
Proof. unfold without. intros H. apply filter_In in H. tauto. Qed.

Lemma cleared_nil (id : option TimerId) : cleared id [] = [].
Proof. destruct id; reflexivity. Qed.

Lemma cleared_owner (w : World) :
  (forall id, In id (timers w) -> requestTimeout (loader w) = Some id) ->
  cleared (requestTimeout (loader w)) (timers w) = [].
Proof.
  intros Hown. unfold cleared.
  destruct (requestTimeout (loader w)) as [i |] eqn:E.
  - apply without_all. intros j Hj. apply Hown in Hj. congruence.
  - destruct (timers w) as [| j l]; [reflexivity |].
    specialize (Hown j (or_introl eq_refl)). discriminate.
Qed.

Lemma fired_owner (w : World) (i : TimerId) :
  (forall id, In id (timers w) -> requestTimeout (loader w) = Some id) ->
  existsb (Nat.eqb i) (timers w) = true ->
  without i (timers w) = [].
Proof.
  intros Hown Hex. apply existsb_exists in Hex as (k & Hk & Hik).
  apply Nat.eqb_eq in Hik. subst k.
  apply without_all. intros j Hj.
  apply Hown in Hj. apply Hown in Hk. congruence.
Qed.

Lemma step_TimerInv (w w' : World) (e : Event) :
  TimerInv w -> step w e = Some w' -> TimerInv w'.
Proof.
  intros (Hidle & Hown & Hdone) Hstep.
  pose proof (cleared_owner w Hown) as Hclr.
  destruct e; step_inv Hstep; unfold TimerInv; handlers;
    rewrite ?Hclr;
    try (rewrite (fired_owner w id Hown) by assumption);
    rewrite ?cleared_nil;
    repeat split; try discriminate; try contradiction; auto.
  intros j [<- | Hj]; [reflexivity |].
  rewrite Hidle in Hj by reflexivity. destruct Hj.
Qed.

Lemma boot_TimerInv (cfg : HlsConfig) : TimerInv (boot cfg).
Proof. repeat split; try reflexivity. intros id []. Qed.

Lemma run_TimerInv (tr : list Event) (w w' : World) :
  TimerInv w -> run w tr = Some w' -> TimerInv w'.
Proof.
  intros Hw Hrun.
  apply (run_preserves TimerInv (fun _ => True)
           (fun w e w' _ => step_TimerInv w w' e) tr w w');
    auto using Forall_any.
Qed.

(** ** The timestamps *)

Lemma le_num_max (now : Z) (a : numeric) :
  (exists t, a = Num t) -> le_num a (Math_max (Num now) a).
Proof. intros (t & ->). simpl. lia. Qed.

Lemma le_num_set (a b : numeric) : le_num a b -> exists t, b = Num t.
Proof. destruct a, b; simpl; try contradiction. eauto. Qed.

Lemma TimeInv_ordered (w : World) : TimeInv w -> ordered (stats (loader w)).
Proof.
  unfold TimeInv, ordered. destruct (chain w); intuition.
Qed.

Lemma step_TimeInv (w w' : World) (e : Event) :
  TimeInv w -> step w e = Some w' -> TimeInv w'.
Proof.
  unfold TimeInv. intros Hinv Hstep.
  destruct e; step_inv Hstep; handlers;
    try (destruct (chain w); simpl in *; exact Hinv).
  all: unfold ordered in *; simpl;
    destruct (trequest (stats (loader w))),
      (tfirst (stats (loader w))), (tload (stats (loader w)));
    simpl in *; decompose [and or ex] Hinv;
    repeat split; try discriminate; try contradiction; eauto;
    try (right; lia); try lia.
Qed.

Lemma boot_TimeInv (cfg : HlsConfig) : TimeInv (boot cfg).
Proof. repeat split. Qed.

Lemma run_TimeInv (tr : list Event) (w w' : World) :
  TimeInv w -> run w tr = Some w' -> TimeInv w'.
Proof.
  intros Hw Hrun.
  apply (run_preserves TimeInv (fun _ => True)
           (fun w e w' _ => step_TimeInv w w' e) tr w w');
    auto using Forall_any.
Qed.


(** ** At most one terminal notification *)

Lemma count_app (p : Notification -> bool) (l l' : list Notification) :
  count p (l ++ l') = (count p l + count p l')%nat.
Proof. unfold count. rewrite filter_app, length_app. reflexivity. Qed.


Lemma cancelled_of_aborted (w : World) :
  aborted (stats (loader w)) = ctl_aborted (controller (loader w)) ->
  signal_attached w ->
  aborted (stats (loader w)) = true ->
  cancelled w = true.
Proof.
  intros Heq (rq & Hrq & Hsig) Hab. unfold cancelled.
  rewrite <- Heq, Hab, Hrq, Hsig, Nat.eqb_refl. reflexivity.
Qed.

Lemma step_StaticInv (w w' : World) (e : Event) :
  polite e -> StaticInv w -> step w e = Some w' -> StaticInv w'.
Proof.
  intros Hpol (Hks & Hab & Hcb & Hreq) Hstep.
  destruct e; step_inv Hstep; unfold StaticInv, signal_attached in *;
    handlers;
    (split; [exact Hks
            | split; [auto | split; [auto; discriminate | intros Hne]]]);
    try (destruct Hreq as (Hsig & c1 & Hc1 & Hs1);
         [exact Hne || discriminate |];
         split; [exact Hsig | exists c1; split; [congruence | exact Hs1]]).
  split.
  - eexists. split; [reflexivity |].
    rewrite Hks. apply getRequestParameters_fixed.
  - eexists. split; [reflexivity | exact Hpol].
Qed.

Ltac counts := rewrite ?count_app; unfold count in *; simpl.

(** A call was made already: the pending promise can only be rejected. *)
Lemma called_cancelled (w : World) :
  StaticInv w -> CountInv w ->
  chain w = AwaitResponse \/ chain w = AwaitBody ->
  cancelled w = false ->
  count is_terminal (log w) = 0%nat.
Proof.
  intros (_ & Hab & _ & Hreq) [H0 | (_ & _ & Hne & [Hs | Ha])] Hch Hcan;
    [exact H0 | |].
  - destruct Hch; congruence.
  - destruct (Hreq Hne) as (Hsig & _).
    rewrite (cancelled_of_aborted w Hab Hsig Ha) in Hcan. discriminate.
Qed.

Lemma step_CountInv (w w' : World) (e : Event) :
  TimerInv w -> StaticInv w -> CountInv w -> step w e = Some w' ->
  CountInv w'.
Proof.
  intros HT HS Hcnt Hstep.
  pose proof HT as (Hidle & Hown & Hsettled).
  pose proof HS as (Hks & Hab & _ & Hreq).
  pose proof (cleared_owner w Hown) as Hclr.
  pose proof (called_cancelled w HS Hcnt) as Hzero.
  unfold CountInv in *.
  destruct e; step_inv Hstep; handlers; counts.
  - (* load *)
    destruct Hcnt as [H0 | (_ & _ & Hne & _)]; [left; exact H0 | congruence].
  - (* abort *)
    destruct (callbacks (loader w)) as [cbs |];
      [destruct (onAbort cbs) |]; simpl; rewrite Nat.add_0_r;
      (destruct Hcnt as [H0 | (H1 & Ht & Hne & _)];
       [left; exact H0 | right; auto]).
  - (* destroy *)
    destruct Hcnt as [H0 | (H1 & Ht & Hne & _)];
      [left; exact H0 | right; auto].
  - (* the timer fires *)
    right.
    assert (Hin : timers w <> []).
    { intros Hnil. rewrite Hnil in *. discriminate. }
    destruct Hcnt as [H0 | (_ & Ht & _)]; [| contradiction].
    rewrite H0. split; [reflexivity |].
    split; [apply fired_owner; assumption |].
    split; [| right; reflexivity].
    intros Hch. apply Hin, Hidle, Hch.
  - (* fetch fulfilled, ok *)
    left. apply Hzero; auto.
  - (* fetch fulfilled, ok, no body for the reader of the pump *)
    rewrite Hzero by auto.
    destruct (aborted (stats (loader w))); simpl;
      [left; reflexivity | right; repeat split; auto; discriminate].
  - (* fetch fulfilled, not ok *)
    rewrite Hzero by auto.
    destruct (aborted (stats (loader w))); simpl;
      [left; reflexivity | right; repeat split; auto; discriminate].
  - (* payload decoded, [onSuccess] returns *)
    apply orb_false_iff in E1 as (Hcan & _).
    rewrite Hzero by auto.
    right. repeat split; auto; discriminate.
  - (* payload decoded, [onSuccess] raises: excluded *)
    destruct Hreq as (_ & c0 & Hc0 & Hret); [discriminate |].
    injection Hc0 as <-. congruence.
  - (* payload decoded, no response *)
    apply orb_false_iff in E1 as (Hcan & _).
    rewrite Hzero by auto. rewrite ?Hclr, ?cleared_nil.
    destruct (aborted (stats (loader w))); simpl;
      [left; reflexivity | right; repeat split; auto; discriminate].
  - (* rejected while awaiting the response *)
    destruct Hcnt as [H0 | (H1 & Ht & _ & [Hs | Ha])];
      [rewrite H0 | discriminate | rewrite H1, Ha; simpl].
    + destruct (aborted (stats (loader w))); simpl;
        [left; reflexivity | right; repeat split; auto; discriminate].
    + right. repeat split; auto; discriminate.
  - (* rejected while awaiting the payload *)
    destruct Hcnt as [H0 | (H1 & Ht & _ & [Hs | Ha])];
      [rewrite H0 | discriminate | rewrite H1, Ha; simpl].
    + destruct (aborted (stats (loader w))); simpl;
        [left; reflexivity | right; repeat split; auto; discriminate].
    + right. repeat split; auto; discriminate.
  - (* a chunk *)
    destruct (onProgress (c_callbacks c)); simpl; rewrite Nat.add_0_r;
      exact Hcnt.
  - (* the pump ends *)
    exact Hcnt.
Qed.

(** ** After an abort *)

(** Once [stats.aborted] is set it stays set, and [onError] is not called
    any more. *)
Lemma step_aborted (w w' : World) (e : Event) :
  aborted (stats (loader w)) = true -> step w e = Some w' ->
  aborted (stats (loader w')) = true
  /\ count is_error (log w') = count is_error (log w).
Proof.
  intros Ha Hstep.
  destruct e; step_inv Hstep; handlers; counts; rewrite ?Ha; simpl;
    try (split; [reflexivity || exact Ha | lia]).
  - destruct (callbacks (loader w)) as [cbs |];
      [destruct (onAbort cbs) |]; simpl; split; auto; lia.
  - destruct (onProgress (c_callbacks c)); simpl; split; auto; lia.
Qed.

Lemma started_not_load (w w' : World) (e : Event) :
  chain w <> NoRequest -> step w e = Some w' ->
  polite e /\ chain w' <> NoRequest.
Proof.
  intros Hne Hstep.
  destruct e; step_inv Hstep; handlers; simpl; auto;
    try (split; [exact I | discriminate]); congruence.
Qed.

(** With the signal attached, an aborted load does not reach [onSuccess]
    either. *)
Lemma step_aborted_success (w w' : World) (e : Event) :
  StaticInv w -> chain w <> NoRequest ->
  aborted (stats (loader w)) = true -> step w e = Some w' ->
  count is_success (log w') = count is_success (log w).
Proof.
  intros (_ & Hab & _ & Hreq) Hne Ha Hstep.
  destruct (Hreq Hne) as (Hsig & _).
  pose proof (cancelled_of_aborted w Hab Hsig Ha) as Hcan.
  destruct e; step_inv Hstep; handlers; counts; rewrite ?Ha; simpl;
    try lia; try (rewrite Hcan in *; discriminate).
  - destruct (callbacks (loader w)) as [cbs |];
      [destruct (onAbort cbs) |]; simpl; lia.
  - destruct (onProgress (c_callbacks c)); simpl; lia.
Qed.

Lemma run_aborted (tr : list Event) (w w' : World) :
  StaticInv w -> chain w <> NoRequest ->
  aborted (stats (loader w)) = true -> run w tr = Some w' ->
  count is_error (log w') = count is_error (log w)
  /\ count is_success (log w') = count is_success (log w).
Proof.
  revert w. induction tr as [| e tr IH]; intros w HS Hne Ha Hrun.
  - injection Hrun as <-. split; reflexivity.
  - simpl in Hrun. destruct (step w e) as [w1 |] eqn:E; [| discriminate].
    destruct (step_aborted w w1 e Ha E) as (Ha1 & He1).
    destruct (started_not_load w w1 e Hne E) as (Hpol & Hne1).
    pose proof (step_aborted_success w w1 e HS Hne Ha E) as Hs1.
    pose proof (step_StaticInv w w1 e Hpol HS E) as HS1.
    destruct (IH w1 HS1 Hne1 Ha1 Hrun) as (He & Hs).
    split; congruence.
Qed.

(** ** After the chain has settled *)

Lemma step_settled (w w' : World) (e : Event) :
  chain w = Settled -> step w e = Some w' ->
  chain w' = Settled
  /\ count is_success (log w') = count is_success (log w)
  /\ count is_error (log w') = count is_error (log w)
  /\ (timers w = [] ->
      count is_timeout (log w') = count is_timeout (log w)).
Proof.
  intros Hs Hstep.
  destruct e; step_inv Hstep; handlers; counts;
    try (repeat split; auto; lia); try congruence.
  - destruct (callbacks (loader w)) as [cbs |];
      [destruct (onAbort cbs) |]; simpl; repeat split; auto; lia.
  - repeat split; auto; try lia. intros Hnil. rewrite Hnil in *. discriminate.
  - destruct (onProgress (c_callbacks c)); simpl; repeat split; auto; lia.
Qed.

Lemma run_settled (tr : list Event) (w w' : World) :
  chain w = Settled -> run w tr = Some w' ->
  chain w' = Settled
  /\ count is_success (log w') = count is_success (log w)
  /\ count is_error (log w') = count is_error (log w).
Proof.
  revert w. induction tr as [| e tr IH]; intros w Hs Hrun.
  - injection Hrun as <-. auto.
  - simpl in Hrun. destruct (step w e) as [w1 |] eqn:E; [| discriminate].
    destruct (step_settled w w1 e Hs E) as (Hs1 & Hc1 & He1 & _).
    destruct (IH w1 Hs1 Hrun) as (Hs' & Hc' & He').
    repeat split; auto; congruence.
Qed.

Lemma run_settled_timer (tr : list Event) (w w' : World) :
  TimerInv w -> chain w = Settled -> run w tr = Some w' ->
  timers w' = []
  /\ count is_timeout (log w') = count is_timeout (log w).
Proof.
  revert w. induction tr as [| e tr IH]; intros w HT Hs Hrun.
  - injection Hrun as <-. destruct HT as (_ & _ & Hnil). auto.
  - simpl in Hrun. destruct (step w e) as [w1 |] eqn:E; [| discriminate].
    destruct (step_settled w w1 e Hs E) as (Hs1 & _ & _ & Ht1).
    pose proof (step_TimerInv w w1 e HT E) as HT1.
    destruct (IH w1 HT1 Hs1 Hrun) as (Hn' & Ht').
    destruct HT as (_ & _ & Hnil).
    split; [exact Hn' | rewrite Ht'; apply Ht1, Hnil, Hs].
Qed.

(** ** Reachable worlds *)

Lemma step_FlowInv (w w' : World) (e : Event) :
  FlowInv w -> step w e = Some w' -> FlowInv w'.
Proof.
  intros (Hr & Hs) Hstep.
  destruct e; step_inv Hstep; unfold FlowInv; handlers; counts;
    (split; [try discriminate; eauto | try congruence]).
  all: intros Hne; rewrite Hs by (exact Hne || discriminate);
    try reflexivity.
  - destruct (callbacks (loader w)) as [cbs |];
      [destruct (onAbort cbs) |]; reflexivity.
  - destruct (onProgress (c_callbacks c)); reflexivity.
Qed.

Lemma step_Reachable (w w' : World) (e : Event) :
  Reachable w -> step w e = Some w' -> Reachable w'.
Proof.
  intros (HT & HM & HF) Hstep.
  split; [apply (step_TimerInv w w' e HT Hstep) |].
  split; [apply (step_TimeInv w w' e HM Hstep) |].
  apply (step_FlowInv w w' e HF Hstep).
Qed.

Lemma boot_Reachable (cfg : HlsConfig) : Reachable (boot cfg).
Proof.
  split; [apply boot_TimerInv | split; [apply boot_TimeInv |]].
  split; [discriminate | reflexivity].
Qed.

Lemma run_Reachable (cfg : HlsConfig) (tr : list Event) (w : World) :
  run (boot cfg) tr = Some w -> Reachable w.
Proof.
  intros Hrun.
  apply (run_preserves Reachable (fun _ => True)
           (fun w e w' _ => step_Reachable w w' e) tr (boot cfg) w);
    auto using Forall_any, boot_Reachable.
Qed.

Lemma boot_StaticInv (cfg : HlsConfig) :
  keeps_signal (fetchSetup (constructor cfg)) -> StaticInv (boot cfg).
Proof.
  intros Hk. split; [exact Hk |]. split; [reflexivity |].
  split; [reflexivity | intros H; contradiction H; reflexivity].
Qed.

Lemma run_counted (cfg : HlsConfig) (tr : list Event) (w : World) :
  keeps_signal (fetchSetup (constructor cfg)) -> Forall polite tr ->
  run (boot cfg) tr = Some w ->
  TimerInv w /\ StaticInv w /\ CountInv w.
Proof.
  intros Hk Hpol Hrun.
  apply (run_preserves
           (fun w => TimerInv w /\ StaticInv w /\ CountInv w) polite)
    with (tr := tr) (w := boot cfg); auto.
  - intros w0 e w1 Hp (HT & HS & HC) Hstep.
    split; [apply (step_TimerInv w0 w1 e HT Hstep) |].
    split; [apply (step_StaticInv w0 w1 e Hp HS Hstep) |].
    apply (step_CountInv w0 w1 e HT HS HC Hstep).
  - split; [apply boot_TimerInv | split; [apply boot_StaticInv, Hk |]].
    left. reflexivity.
Qed.

Lemma getRequest_keeps_signal : keeps_signal getRequest.
Proof. intros ctx ip. reflexivity. Qed.

(* ================================================================== *)
(** ** The timeout path (C2) *)

(** C2, as the code has it.  When the timer fires, the timeout path sets
    [stats.aborted] to true (through [abortInternal]) and leaves every other
    field of the stats as it was; it calls [onTimeout], and not [onAbort]:
    the log grows by that one call. *)
Theorem timeout_path (w w' : World) (id : TimerId) :
  step w (TimerFires id) = Some w' ->
  stats (loader w') = set_aborted true (stats (loader w))
  /\ aborted (stats (loader w')) = true
  /\ trequest (stats (loader w')) = trequest (stats (loader w))
  /\ tfirst (stats (loader w')) = tfirst (stats (loader w))
  /\ tload (stats (loader w')) = tload (stats (loader w))
  /\ loaded (stats (loader w')) = loaded (stats (loader w))
  /\ total (stats (loader w')) = total (stats (loader w))
  /\ exists c,
       captured w = Some c
       /\ log w' = (log w ++ [OnTimeout (set_aborted true (stats (loader w)))
                                (c_context c) (response (loader w))])%list.
Proof.
  intros Hstep. step_inv Hstep. handlers.
  repeat (split; [reflexivity |]). eauto.
Qed.

Lemma timeout_path_witness :
  aborted (stats (loader (after [load_seg; TimerFires 1%nat]))) = true.
Proof.
  apply (timeout_path (after [load_seg]) (after [load_seg; TimerFires 1%nat]) 1%nat).
  reflexivity.
Defined.

(** C2 as stated fails: after [load], [stats.aborted] is false; the timer
    fires, and it is true. *)
Lemma timeout_sets_aborted :
  aborted (stats (loader (after [load_seg]))) = false
  /\ step (after [load_seg]) (TimerFires 1%nat)
     = Some (after [load_seg; TimerFires 1%nat])
  /\ aborted (stats (loader (after [load_seg; TimerFires 1%nat]))) = true.
Proof. repeat split. Qed.

(* ================================================================== *)
(** ** Byte counts after a success (C4) *)

(** C4.  When the payload is decoded, the second handler sets
    [stats.loaded] and [stats.total] to the length of the payload (the
    string length of a text, the byte length of a buffer), whatever
    [total] was read from [Content-Length] and whatever the pump had
    added to [loaded]; [onSuccess] is called with these stats. *)
Theorem success_byte_counts (cfg : HlsConfig) (tr : list Event)
    (w w' : World) (d : ResponseData) (now : Z) :
  run (boot cfg) tr = Some w ->
  step w (Decoded d now) = Some w' ->
  loaded (stats (loader w')) = Num (payload_length d)
  /\ total (stats (loader w')) = Num (payload_length d)
  /\ loaded (stats (loader w')) = total (stats (loader w'))
  /\ (forall s, d = Text s -> payload_length d = Z.of_nat (String.length s))
  /\ (forall b, d = ArrayBuffer b ->
        payload_length d = Z.of_nat (List.length b))
  /\ exists r c rest,
       response (loader w) = Some r /\ captured w = Some c
       /\ log w' = (log w ++ OnSuccess (resp_url r) d (stats (loader w'))
                               (c_context c) r :: rest)%list.
Proof.
  intros Hrun Hstep.
  destruct (run_Reachable cfg tr w Hrun) as (_ & _ & (Hresp & _)).
  step_inv Hstep. destruct (Hresp eq_refl) as (r0 & Hr0).
  handlers; try congruence; rewrite <- ?app_assoc; simpl;
    (repeat (split; [reflexivity |]);
     split; [intros s ->; reflexivity |];
     split; [intros b ->; reflexivity |];
     exists r, c; eexists; repeat split; try eassumption; reflexivity).
Qed.

Lemma success_byte_counts_witness :
  total (stats (loader
    (after [load_seg; Fulfilled (resp 206 "" [("Content-Length", "999")]) 60;
            Chunk (zeros 40); Decoded (ArrayBuffer (zeros 100)) 70])))
  = Num 100.
Proof.
  assert (H1 : run (boot default_config)
                 [load_seg;
                  Fulfilled (resp 206 "" [("Content-Length", "999")]) 60;
                  Chunk (zeros 40)]
               = Some (after [load_seg;
                  Fulfilled (resp 206 "" [("Content-Length", "999")]) 60;
                  Chunk (zeros 40)]))
    by (vm_compute; reflexivity).
  assert (H2 : step (after [load_seg;
                  Fulfilled (resp 206 "" [("Content-Length", "999")]) 60;
                  Chunk (zeros 40)])
                 (Decoded (ArrayBuffer (zeros 100)) 70)
               = Some (after [load_seg;
                  Fulfilled (resp 206 "" [("Content-Length", "999")]) 60;
                  Chunk (zeros 40); Decoded (ArrayBuffer (zeros 100)) 70]))
    by (vm_compute; reflexivity).
  exact (proj1 (proj2 (success_byte_counts _ _ _ _ _ _ H1 H2))).
Defined.

Example content_length_is_read :
  total (stats (loader
    (after [load_seg; Fulfilled (resp 206 "" [("Content-Length", "999")]) 60])))
  = Num 999.
Proof. vm_compute. reflexivity. Qed.

(* ================================================================== *)
(** ** Timestamps (C5) *)

(** C5.  In every world a loader reaches, whatever the clock read at each
    event, the timestamps that are set are in order:
    [tfirst >= trequest] and [tload >= tfirst].  [load] records the clock in
    [trequest]; the first handler assigns [tfirst] the larger of the clock
    and [trequest], the second assigns [tload] the larger of the clock and
    [tfirst]; neither changes the earlier timestamp. *)
Theorem timestamps_monotone (cfg : HlsConfig) (tr : list Event) (w : World) :
  run (boot cfg) tr = Some w ->
  ordered (stats (loader w))
  /\ (forall ctx lcfg cbs now w',
        step w (Load ctx lcfg cbs now) = Some w' ->
        trequest (stats (loader w')) = Num now)
  /\ (forall r now w',
        step w (Fulfilled r now) = Some w' -> ok r = true ->
        exists t,
          trequest (stats (loader w)) = Num t
          /\ trequest (stats (loader w')) = Num t
          /\ tfirst (stats (loader w')) = Num (Z.max now t)
          /\ t <= Z.max now t /\ now <= Z.max now t)
  /\ (forall d now w',
        step w (Decoded d now) = Some w' ->
        exists f,
          tfirst (stats (loader w)) = Num f
          /\ tfirst (stats (loader w')) = Num f
          /\ tload (stats (loader w')) = Num (Z.max now f)
          /\ f <= Z.max now f /\ now <= Z.max now f).
Proof.
  intros Hrun.
  destruct (run_Reachable cfg tr w Hrun) as (_ & HM & _).
  split; [apply TimeInv_ordered, HM |].
  unfold TimeInv in HM. split; [| split].
  - intros ctx lcfg cbs now w' Hstep. step_inv Hstep. reflexivity.
  - intros r now w' Hstep Hok.
    step_inv Hstep. simpl in HM. destruct HM as ((t & Ht) & _ & _).
    exists t. split; [exact Ht |].
    handlers; try discriminate; rewrite ?Ht; simpl;
      (split; [reflexivity || exact Ht |]); (split; [reflexivity | lia]).
  - intros d now w' Hstep.
    step_inv Hstep. simpl in HM. destruct HM as (Hle & _).
    destruct (le_num_set _ _ Hle) as (f & Hf).
    exists f. split; [exact Hf |].
    handlers; rewrite ?Hf; simpl;
      (split; [reflexivity || exact Hf |]); (split; [reflexivity | lia]).
Qed.

Lemma timestamps_monotone_witness :
  tfirst (stats (loader (after [load_seg; Fulfilled (resp 200 "OK" []) 60])))
  = Num 60
  /\ tload (stats (loader
        (after [load_seg; Fulfilled (resp 200 "OK" []) 60;
                Decoded (ArrayBuffer (zeros 3)) 2]))) = Num 60.
Proof.
  assert (H0 : run (boot default_config) [load_seg] = Some (after [load_seg]))
    by (vm_compute; reflexivity).
  assert (H1 : step (after [load_seg]) (Fulfilled (resp 200 "OK" []) 60)
               = Some (after [load_seg; Fulfilled (resp 200 "OK" []) 60]))
    by (vm_compute; reflexivity).
  assert (H2 : run (boot default_config)
                 [load_seg; Fulfilled (resp 200 "OK" []) 60]
               = Some (after [load_seg; Fulfilled (resp 200 "OK" []) 60]))
    by (vm_compute; reflexivity).
  assert (H3 : step (after [load_seg; Fulfilled (resp 200 "OK" []) 60])
                 (Decoded (ArrayBuffer (zeros 3)) 2)
               = Some (after [load_seg; Fulfilled (resp 200 "OK" []) 60;
                              Decoded (ArrayBuffer (zeros 3)) 2]))
    by (vm_compute; reflexivity).
  destruct (proj1 (proj2 (proj2 (timestamps_monotone _ _ _ H0)))
              _ _ _ H1 eq_refl) as (t & Ht & _ & Hfirst & _).
  destruct (proj2 (proj2 (proj2 (timestamps_monotone _ _ _ H2)))
              _ _ _ H3) as (f & Hf & _ & Hload & _).
  vm_compute in Ht. injection Ht as <-.
  vm_compute in Hf. injection Hf as <-.
  split; [exact Hfirst | exact Hload].
Defined.

(** The clock runs forward: each timestamp is the clock at its event. *)
Example forward_clock :
  stats (loader
    (after [load_seg; Fulfilled (resp 200 "OK" []) 60;
            Decoded (ArrayBuffer (zeros 3)) 70]))
  = {| aborted := false; trequest := Num 10; tfirst := Num 60;
       tload := Num 70; loaded := Num 3; total := Num 3 |}.
Proof. vm_compute. reflexivity. Qed.

(** The clock jumps back after the first byte: [tload] stays at
    [tfirst]. *)
Example clock_back_after_first_byte :
  stats (loader
    (after [load_seg; Fulfilled (resp 200 "OK" []) 60;
            Decoded (ArrayBuffer (zeros 3)) 2]))
  = {| aborted := false; trequest := Num 10; tfirst := Num 60;
       tload := Num 60; loaded := Num 3; total := Num 3 |}.
Proof. vm_compute. reflexivity. Qed.

Example skewed_clock :
  stats (loader
    (after [load_seg; Fulfilled (resp 200 "OK" []) 5;
            Decoded (ArrayBuffer (zeros 3)) 2]))
  = {| aborted := false; trequest := Num 10; tfirst := Num 10;
       tload := Num 10; loaded := Num 3; total := Num 3 |}.
Proof. vm_compute. reflexivity. Qed.

(* ================================================================== *)
(** ** One terminal notification (C1) *)

(** A step that leaves the chain settled and the load not aborted either
    started from such a world and made no terminal call, or made one. *)
Lemma settle_step (w w' : World) (e : Event) :
  step w e = Some w' ->
  chain w' = Settled -> aborted (stats (loader w')) = false ->
  (chain w = Settled /\ aborted (stats (loader w)) = false
   /\ count is_terminal (log w') = count is_terminal (log w))
  \/ (1 <= count is_terminal (log w'))%nat.
Proof.
  intros Hstep.
  destruct e; step_inv Hstep; handlers; counts; intros Hs Ha;
    try discriminate;
    try (left; split; [assumption | split; [assumption | lia]]);
    try (right; rewrite Ha; simpl; lia);
    try (right; simpl; lia).
  left. destruct (onProgress (c_callbacks c)); simpl;
    (split; [assumption | split; [assumption | lia]]).
Qed.

(** Apart from [abort()] and [destroy()], only the timer marks a load
    aborted, and it calls [onTimeout]. *)
Lemma quiet_step (w w' : World) (e : Event) :
  step w e = Some w' -> e <> Abort -> e <> Destroy ->
  aborted (stats (loader w')) = true ->
  (aborted (stats (loader w)) = true
   /\ (count is_terminal (log w) <= count is_terminal (log w'))%nat)
  \/ (1 <= count is_terminal (log w'))%nat.
Proof.
  intros Hstep Hna Hnd.
  destruct e; try contradiction; step_inv Hstep; handlers; counts; intros Ha;
    try discriminate;
    try (right; simpl; lia);
    try (left; split; [assumption | lia]).
Qed.

(** A settled load that is not marked aborted made its terminal call. *)
Lemma run_settled_once (cfg : HlsConfig) (tr : list Event) (w : World) :
  keeps_signal (fetchSetup (constructor cfg)) -> Forall polite tr ->
  run (boot cfg) tr = Some w ->
  chain w = Settled -> aborted (stats (loader w)) = false ->
  count is_terminal (log w) = 1%nat.
Proof.
  intros Hk Hpol Hrun.
  apply (run_preserves
           (fun w => (TimerInv w /\ StaticInv w /\ CountInv w)
                     /\ (chain w = Settled ->
                         aborted (stats (loader w)) = false ->
                         count is_terminal (log w) = 1%nat))
           polite) with (tr := tr) (w := boot cfg); try assumption.
  - intros w0 e w1 Hq ((HT & HS & HC) & Hone) Hstep.
    assert (HC1 : CountInv w1) by (apply (step_CountInv w0 w1 e); assumption).
    split.
    + split; [apply (step_TimerInv w0 w1 e); assumption |].
      split; [apply (step_StaticInv w0 w1 e); assumption | exact HC1].
    + intros Hs Ha.
      destruct (settle_step w0 w1 e Hstep Hs Ha) as [(Hs0 & Ha0 & Heq) | Hge].
      * rewrite Heq. apply Hone; assumption.
      * destruct HC1 as [H0 | (H1 & _)]; [lia | exact H1].
  - split; [| discriminate].
    split; [apply boot_TimerInv |].
    split; [apply boot_StaticInv; exact Hk | left; reflexivity].
Qed.

(** Without [abort()] and [destroy()], a load marked aborted is one whose
    timer fired: [onTimeout] was its terminal call. *)
Lemma run_quiet_once (cfg : HlsConfig) (tr : list Event) (w : World) :
  keeps_signal (fetchSetup (constructor cfg)) -> Forall polite tr ->
  Forall uninterrupted tr ->
  run (boot cfg) tr = Some w ->
  aborted (stats (loader w)) = true ->
  count is_terminal (log w) = 1%nat.
Proof.
  intros Hk Hpol Hq Hrun.
  apply (run_preserves
           (fun w => (TimerInv w /\ StaticInv w /\ CountInv w)
                     /\ (aborted (stats (loader w)) = true ->
                         count is_terminal (log w) = 1%nat))
           (fun e => polite e /\ uninterrupted e))
    with (tr := tr) (w := boot cfg); try assumption.
  - intros w0 e w1 (Hp & Hna & Hnd) ((HT & HS & HC) & Hone) Hstep.
    assert (HC1 : CountInv w1) by (apply (step_CountInv w0 w1 e); assumption).
    split.
    + split; [apply (step_TimerInv w0 w1 e); assumption |].
      split; [apply (step_StaticInv w0 w1 e); assumption | exact HC1].
    + intros Ha.
      destruct (quiet_step w0 w1 e Hstep Hna Hnd Ha) as [(Ha0 & Hle) | Hge].
      * specialize (Hone Ha0).
        destruct HC1 as [H0 | (H1 & _)]; [lia | exact H1].
      * destruct HC1 as [H0 | (H1 & _)]; [lia | exact H1].
  - apply Forall_and; assumption.
  - split; [| discriminate].
    split; [apply boot_TimerInv |].
    split; [apply boot_StaticInv; exact Hk | left; reflexivity].
Qed.

(** C1, as the code has it.  For a loader whose request factory passes the
    signal on and a caller whose [onSuccess] returns: a load calls at most
    one of [onSuccess], [onError], [onTimeout].  A load whose promise chain
    has settled called exactly one of them whenever it is not marked
    aborted, and whenever neither [abort()] nor [destroy()] was called, a
    timeout included.  Once [load] has been called, [abort()] calls
    [onAbort] when it is registered, and from then on no rejection and no
    HTTP error reaches [onError], and [onSuccess] is not called either. *)
Theorem one_terminal_notification (cfg : HlsConfig) (tr : list Event)
    (w : World) :
  keeps_signal (fetchSetup (constructor cfg)) ->
  Forall polite tr ->
  run (boot cfg) tr = Some w ->
  (count is_terminal (log w) <= 1)%nat
  /\ (chain w = Settled -> aborted (stats (loader w)) = false ->
      count is_terminal (log w) = 1%nat)
  /\ (chain w = Settled -> Forall uninterrupted tr ->
      count is_terminal (log w) = 1%nat)
  /\ (forall cbs, callbacks (loader w) = Some cbs ->
      exists w1,
        step w Abort = Some w1
        /\ (forall f, onAbort cbs = Some f ->
            log w1 = (log w ++ [OnAbort (set_aborted true (stats (loader w)))
                                  (context (loader w))
                                  (response (loader w))])%list)
        /\ forall tr' w',
             run w1 tr' = Some w' ->
             count is_error (log w') = count is_error (log w)
             /\ count is_success (log w') = count is_success (log w)).
Proof.
  intros Hk Hpol Hrun.
  destruct (run_counted cfg tr w Hk Hpol Hrun) as (HT & HS & HC).
  split; [destruct HC as [H0 | (H1 & _)]; lia |].
  split; [exact (run_settled_once cfg tr w Hk Hpol Hrun) |].
  split.
  - intros Hs Hq.
    destruct (aborted (stats (loader w))) eqn:Ha.
    + exact (run_quiet_once cfg tr w Hk Hpol Hq Hrun Ha).
    + exact (run_settled_once cfg tr w Hk Hpol Hrun Hs Ha).
  - intros cbs Hcbs. exists (uncaught (abort w)).
    split; [reflexivity |].
    assert (Hne : chain w <> NoRequest).
    { destruct HS as (_ & _ & Hidle & _). intros Hch.
      rewrite (Hidle Hch) in Hcbs. discriminate. }
    split.
    + intros f Hf. rewrite abort_eq. simpl. rewrite Hcbs, Hf. reflexivity.
    + intros tr' w' Hrun'.
      assert (Hstep : step w Abort = Some (uncaught (abort w)))
        by reflexivity.
      pose proof (step_StaticInv w _ Abort I HS Hstep) as HS1.
      destruct (started_not_load w _ Abort Hne Hstep) as (_ & Hne1).
      assert (Ha1 : aborted (stats (loader (uncaught (abort w)))) = true)
        by (rewrite abort_eq; reflexivity).
      destruct (run_aborted tr' _ w' HS1 Hne1 Ha1 Hrun') as (He & Hs).
      rewrite He, Hs, abort_eq. simpl. counts. rewrite Hcbs.
      destruct (onAbort cbs); simpl; lia.
Qed.

Lemma one_terminal_notification_witness :
  count is_terminal
    (log (after [load_seg; TimerFires 1%nat; Rejected aborted_error]))
  = 1%nat.
Proof.
  assert (Hrun : run (boot default_config)
                   [load_seg; TimerFires 1%nat; Rejected aborted_error]
                 = Some (after [load_seg; TimerFires 1%nat;
                                Rejected aborted_error]))
    by (vm_compute; reflexivity).
  assert (Hpol : Forall polite
                   [load_seg; TimerFires 1%nat; Rejected aborted_error])
    by (repeat constructor).
  assert (Hq : Forall uninterrupted
                 [load_seg; TimerFires 1%nat; Rejected aborted_error])
    by (repeat constructor; discriminate).
  assert (Hs : chain (after [load_seg; TimerFires 1%nat;
                             Rejected aborted_error]) = Settled)
    by (vm_compute; reflexivity).
  exact (proj1 (proj2 (proj2
           (one_terminal_notification default_config _ _
              getRequest_keeps_signal Hpol Hrun))) Hs Hq).
Defined.

(** C1 as stated fails: a load ended by [destroy()] can settle without
    any notification, and [abort()] after a success adds [onAbort] to
    [onSuccess]. *)
Lemma silent_or_doubled_load :
  (run (boot default_config) [load_seg; Destroy; Rejected aborted_error]
   = Some (after [load_seg; Destroy; Rejected aborted_error])
   /\ chain (after [load_seg; Destroy; Rejected aborted_error]) = Settled
   /\ log (after [load_seg; Destroy; Rejected aborted_error]) = [])
  /\ (run (boot default_config)
        [load_seg; Fulfilled (resp 200 "OK" []) 60;
         Decoded (ArrayBuffer (zeros 3)) 70; Abort]
      = Some (after [load_seg; Fulfilled (resp 200 "OK" []) 60;
                     Decoded (ArrayBuffer (zeros 3)) 70; Abort])
      /\ map (fun n => (is_success n, is_abort n))
           (log (after [load_seg; Fulfilled (resp 200 "OK" []) 60;
                        Decoded (ArrayBuffer (zeros 3)) 70; Abort]))
         = [(true, false); (false, true)]).
Proof. vm_compute. repeat split. Qed.

(* ================================================================== *)
(** ** HTTP errors (C6) *)

Lemma ok_status (r : Response) :
  ok r = true <-> 200 <= status r <= 299.
Proof. unfold ok. rewrite andb_true_iff, !Z.leb_le. tauto. Qed.

(** C6.  A response whose status is not in 200-299, on a load that is not
    aborted, calls [onError] with the status as code and the status text,
    or the default message when the text is empty, and with the response as
    details; the chain is settled and [onSuccess] is not called for this
    load, before or after. *)
Theorem http_error_reported (cfg : HlsConfig) (tr : list Event)
    (w w' : World) (r : Response) (now : Z) :
  run (boot cfg) tr = Some w ->
  step w (Fulfilled r now) = Some w' ->
  ~ (200 <= status r <= 299) ->
  aborted (stats (loader w)) = false ->
  (exists c text,
     captured w = Some c
     /\ log w' = (log w ++ [OnError (Some (status r)) text (c_context c)
                              (Some r)])%list
     /\ (statusText r = "" -> text = "fetch, bad network response")
     /\ (statusText r <> "" -> text = statusText r))
  /\ chain w' = Settled
  /\ forall tr' w'',
       run w' tr' = Some w'' ->
       count is_success (log w'') = 0%nat
       /\ count is_error (log w'') = count is_error (log w').
Proof.
  intros Hrun Hstep Hbad Hab.
  destruct (run_Reachable cfg tr w Hrun) as (_ & _ & (_ & Hnos)).
  assert (Hok : ok r = false).
  { destruct (ok r) eqn:E; [| reflexivity].
    apply ok_status in E. contradiction. }
  step_inv Hstep. unfold caught.
  rewrite (then_response_bad c r now w Hok). simpl.
  rewrite on_catch_eq. simpl. rewrite Hab.
  split; [| split; [reflexivity |]].
  - exists c, (or_string (statusText r) "fetch, bad network response").
    split; [reflexivity |]. split; [reflexivity |].
    destruct (statusText r); split; intros H;
      try reflexivity; try discriminate; contradiction H; reflexivity.
  - intros tr' w'' Hrun'.
    apply run_settled in Hrun'; [| reflexivity].
    destruct Hrun' as (_ & Hs & He).
    rewrite Hs, He. simpl. split; [| reflexivity].
    rewrite count_app, Hnos by discriminate. reflexivity.
Qed.

Lemma http_error_reported_witness :
  chain (after [load_seg; Fulfilled (resp 404 "" []) 60]) = Settled.
Proof.
  assert (H1 : run (boot default_config) [load_seg]
               = Some (after [load_seg]))
    by (vm_compute; reflexivity).
  assert (H2 : step (after [load_seg]) (Fulfilled (resp 404 "" []) 60)
               = Some (after [load_seg; Fulfilled (resp 404 "" []) 60]))
    by (vm_compute; reflexivity).
  assert (H3 : ~ (200 <= status (resp 404 "" []) <= 299))
    by (simpl; lia).
  assert (H4 : aborted (stats (loader (after [load_seg]))) = false)
    by (vm_compute; reflexivity).
  exact (proj1 (proj2 (http_error_reported _ _ _ _ _ _ H1 H2 H3 H4))).
Defined.

Example not_found_log :
  log (after [load_seg; Fulfilled (resp 404 "" []) 60])
  = [OnError (Some 404) "fetch, bad network response" seg_context
       (Some (resp 404 "" []))].
Proof. vm_compute. reflexivity. Qed.

(* ================================================================== *)
(** ** Releasing the timer (C7) *)

(** C7, as the code has it.  In every world a loader reaches: the second
    handler (success) and the catch handler (rejection, HTTP error) clear
    the timer; a timer that fires is no longer scheduled; [abort()] and
    [destroy()] leave the schedule as it is, the timer being cleared when
    the rejection of the aborted request reaches the catch handler.  Once
    the chain has settled no timer is scheduled, and [onTimeout] is not
    called any more. *)
Theorem timer_released (cfg : HlsConfig) (tr : list Event) (w : World) :
  run (boot cfg) tr = Some w ->
  (forall d now w', step w (Decoded d now) = Some w' -> timers w' = [])
  /\ (forall e w', step w (Rejected e) = Some w' -> timers w' = [])
  /\ (forall r now w',
        step w (Fulfilled r now) = Some w' -> ok r = false ->
        timers w' = [])
  /\ (forall id w', step w (TimerFires id) = Some w' -> timers w' = [])
  /\ (forall w',
        step w Abort = Some w' \/ step w Destroy = Some w' ->
        timers w' = timers w)
  /\ (chain w = Settled ->
      timers w = []
      /\ forall tr' w',
           run w tr' = Some w' ->
           timers w' = []
           /\ count is_timeout (log w') = count is_timeout (log w)).
Proof.
  intros Hrun.
  destruct (run_Reachable cfg tr w Hrun) as (HT & _ & _).
  pose proof HT as (Hidle & Hown & Hsettled).
  pose proof (cleared_owner w Hown) as Hclr.
  split; [| split; [| split; [| split; [| split]]]].
  - intros d now w' Hstep. step_inv Hstep.
    handlers; rewrite ?Hclr, ?cleared_nil; reflexivity.
  - intros e w' Hstep. step_inv Hstep; handlers; exact Hclr.
  - intros r now w' Hstep Hok. step_inv Hstep. unfold caught.
    rewrite (then_response_bad c r now w Hok). simpl.
    rewrite on_catch_eq. simpl. exact Hclr.
  - intros id w' Hstep. step_inv Hstep. handlers.
    apply fired_owner; assumption.
  - intros w' [Hstep | Hstep]; step_inv Hstep; handlers; reflexivity.
  - intros Hs. split; [apply Hsettled, Hs |].
    intros tr' w' Hrun'. apply (run_settled_timer tr' w w' HT Hs Hrun').
Qed.

Lemma timer_released_witness :
  timers (after [load_seg; Fulfilled (resp 200 "OK" []) 60;
                 Decoded (ArrayBuffer (zeros 3)) 70]) = [].
Proof.
  assert (H1 : run (boot default_config)
                 [load_seg; Fulfilled (resp 200 "OK" []) 60]
               = Some (after [load_seg; Fulfilled (resp 200 "OK" []) 60]))
    by (vm_compute; reflexivity).
  assert (H2 : step (after [load_seg; Fulfilled (resp 200 "OK" []) 60])
                 (Decoded (ArrayBuffer (zeros 3)) 70)
               = Some (after [load_seg; Fulfilled (resp 200 "OK" []) 60;
                              Decoded (ArrayBuffer (zeros 3)) 70]))
    by (vm_compute; reflexivity).
  exact (proj1 (timer_released _ _ _ H1) _ _ _ H2).
Defined.

(** C7 as stated fails: after [abort()] the timer is still scheduled; it
    can fire, and [onTimeout] follows [onAbort]. *)
Lemma timer_survives_abort :
  run (boot default_config) [load_seg; Abort]
  = Some (after [load_seg; Abort])
  /\ timers (after [load_seg; Abort]) = [1%nat]
  /\ step (after [load_seg; Abort]) (TimerFires 1%nat)
     = Some (after [load_seg; Abort; TimerFires 1%nat])
  /\ map (fun n => (is_abort n, is_timeout n))
       (log (after [load_seg; Abort; TimerFires 1%nat]))
     = [(true, false); (false, true)].
Proof. vm_compute. repeat split. Qed.

(* ================================================================== *)
(** ** abort and destroy (C8) *)

Lemma abortInternal_idem (l : Loader) :
  abortInternal (abortInternal l) = abortInternal l.
Proof. reflexivity. Qed.

(** C8, as the code has it.  [destroy()] never raises, calls no callback
    and is idempotent.  Once [load] has been called, [abort()] raises only
    what [onAbort] raises, leaves the loader as [destroy()] does, so that
    a second call changes no state, and it calls [onAbort], when
    registered, at every call, settled or not. *)
Theorem abort_destroy_safe (w : World) :
  (step w Destroy = Some (destroy w)
   /\ escaped (destroy w) = escaped w
   /\ log (destroy w) = log w
   /\ destroy (destroy w) = destroy w)
  /\ (forall cbs,
        callbacks (loader w) = Some cbs ->
        (forall f, onAbort cbs = Some f -> f = Returns) ->
        exists w1,
          step w Abort = Some w1
          /\ escaped w1 = escaped w
          /\ loader w1 = loader (destroy w)
          /\ chain w1 = chain w /\ timers w1 = timers w
          /\ log w1 = (log w ++
                       match onAbort cbs with
                       | Some _ => [OnAbort (stats (loader w1))
                                      (context (loader w))
                                      (response (loader w))]
                       | None => []
                       end)%list
          /\ exists w2,
               step w1 Abort = Some w2
               /\ escaped w2 = escaped w1
               /\ loader w2 = loader w1
               /\ log w2 = (log w1 ++
                            match onAbort cbs with
                            | Some _ => [OnAbort (stats (loader w1))
                                           (context (loader w))
                                           (response (loader w))]
                            | None => []
                            end)%list).
Proof.
  split.
  - repeat split.
  - intros cbs Hcbs Hret.
    exists (uncaught (abort w)). split; [reflexivity |].
    rewrite abort_eq. simpl. rewrite Hcbs.
    assert (Hesc : match onAbort cbs with
                   | Some f => opt_list (raised f)
                   | None => []
                   end = @nil JsError).
    { destruct (onAbort cbs) as [f |] eqn:E; [| reflexivity].
      rewrite (Hret f eq_refl). reflexivity. }
    rewrite Hesc, app_nil_r.
    repeat (split; [reflexivity |]).
    eexists. split; [reflexivity |].
    rewrite abort_eq. simpl. rewrite Hcbs, Hesc, app_nil_r.
    repeat split.
Qed.

Lemma abort_destroy_safe_witness :
  exists w1,
    step (after [load_seg]) Abort = Some w1
    /\ escaped w1 = escaped (after [load_seg]).
Proof.
  destruct (proj2 (abort_destroy_safe (after [load_seg])) all_callbacks)
    as (w1 & H1 & H2 & _).
  - vm_compute. reflexivity.
  - intros f Hf. vm_compute in Hf. injection Hf as <-. reflexivity.
  - exists w1. split; assumption.
Defined.

(** C8 as stated fails: [abort()] after the load has succeeded is not a
    no-op, it calls [onAbort]; and each further call calls it again. *)
Lemma abort_after_success_notifies :
  run (boot default_config)
    [load_seg; Fulfilled (resp 200 "OK" []) 60;
     Decoded (ArrayBuffer (zeros 3)) 70; Abort; Abort]
  = Some (after [load_seg; Fulfilled (resp 200 "OK" []) 60;
                 Decoded (ArrayBuffer (zeros 3)) 70; Abort; Abort])
  /\ map (fun n => (is_success n, is_abort n))
       (log (after [load_seg; Fulfilled (resp 200 "OK" []) 60;
                    Decoded (ArrayBuffer (zeros 3)) 70; Abort; Abort]))
     = [(true, false); (false, true); (false, true)]
  /\ aborted (stats (loader
       (after [load_seg; Fulfilled (resp 200 "OK" []) 60;
               Decoded (ArrayBuffer (zeros 3)) 70]))) = false
  /\ aborted (stats (loader
       (after [load_seg; Fulfilled (resp 200 "OK" []) 60;
               Decoded (ArrayBuffer (zeros 3)) 70; Abort]))) = true.
Proof. vm_compute. repeat split. Qed.

(** Before [load], [abort()] raises: [this.callbacks] is not assigned. *)
Lemma abort_before_load_raises (cfg : HlsConfig) :
  exists w,
    step (boot cfg) Abort = Some w
    /\ escaped w = [TypeError "Cannot read properties of undefined"]
    /\ log w = [].
Proof. eexists. split; [reflexivity |]. rewrite abort_eq. split; reflexivity. Qed.

(* ================================================================== *)
(** ** getResponseHeader (C9) *)

Lemma getResponseHeader_of_response (this : Loader) (r : Response)
    (name : string) :
  response this = Some r ->
  getResponseHeader this name = inr (header_value r name).
Proof.
  intros Hr. unfold getResponseHeader, header_value, Headers_get.
  rewrite Hr. destruct (valid_name name); reflexivity.
Qed.

Lemma fulfilled_response (w w' : World) (r : Response) (now : Z) :
  step w (Fulfilled r now) = Some w' -> response (loader w') = Some r.
Proof.
  intros Hstep. step_inv Hstep. handlers; reflexivity.
Qed.

(** C9.  [getResponseHeader] never raises; it returns [null] before any
    response was received and when the response has no such header, and
    otherwise the value the last received response has for the name. *)
Theorem getResponseHeader_total (this : Loader) (name : string) :
  (exists v, getResponseHeader this name = inr v)
  /\ (response this = None -> getResponseHeader this name = inr None)
  /\ (forall r, response this = Some r ->
        getResponseHeader this name = inr (header_value r name)
        /\ (values_of (resp_headers r) name = [] ->
            getResponseHeader this name = inr None))
  /\ (forall w r now w',
        step w (Fulfilled r now) = Some w' ->
        getResponseHeader (loader w') name = inr (header_value r name)).
Proof.
  split; [| split; [| split]].
  - unfold getResponseHeader. destruct (response this) as [r |].
    + destruct (Headers_get (resp_headers r) name); eauto.
    + eauto.
  - intros Hn. unfold getResponseHeader. rewrite Hn. reflexivity.
  - intros r Hr. rewrite (getResponseHeader_of_response this r name Hr).
    split; [reflexivity |].
    intros Hv. unfold header_value. rewrite Hv.
    destruct (valid_name name); reflexivity.
  - intros w r now w' Hstep. apply getResponseHeader_of_response.
    apply (fulfilled_response w w' r now Hstep).
Qed.

Lemma getResponseHeader_total_witness :
  getResponseHeader
    (loader (after [load_seg;
                    Fulfilled (resp 206 "" [("Content-Length", "100")]) 60]))
    "content-length"
  = inr (Some "100").
Proof.
  assert (H : step (after [load_seg])
                (Fulfilled (resp 206 "" [("Content-Length", "100")]) 60)
              = Some (after [load_seg;
                    Fulfilled (resp 206 "" [("Content-Length", "100")]) 60]))
    by (vm_compute; reflexivity).
  exact (proj2 (proj2 (proj2 (getResponseHeader_total
           (constructor default_config) "content-length"))) _ _ _ _ H).
Defined.

Example header_invalid_name :
  getResponseHeader
    (loader (after [load_seg;
                    Fulfilled (resp 206 "" [("Content-Length", "100")]) 60]))
    "content length"
  = inr None.
Proof. vm_compute. reflexivity. Qed.

(* ================================================================== *)
(** ** What [load] binds stays bound *)

Lemma step_bound (w w' : World) (e : Event) :
  chain w <> NoRequest -> step w e = Some w' ->
  bound w' = bound w /\ chain w' <> NoRequest.
Proof.
  intros Hne Hstep. unfold bound.
  destruct e; step_inv Hstep; handlers;
    try match goal with H : captured w = Some _ |- _ => rewrite H end;
    try (split; [reflexivity | assumption || discriminate]);
    try (exfalso; apply Hne; reflexivity).
Qed.

Lemma run_bound (tr : list Event) (w w' : World) :
  chain w <> NoRequest -> run w tr = Some w' ->
  bound w' = bound w /\ chain w' <> NoRequest.
Proof.
  revert w. induction tr as [| e tr IH]; intros w Hne Hrun.
  - injection Hrun as <-. auto.
  - simpl in Hrun. destruct (step w e) as [w1 |] eqn:E; [| discriminate].
    destruct (step_bound w w1 e Hne E) as (Hb & Hne1).
    destruct (IH w1 Hne1 Hrun) as (Hb' & Hne').
    split; [congruence | exact Hne'].
Qed.

(** Only [load] assigns the context, the configuration, the callbacks,
    the request, the timer handle and the start time: [abort()],
    [destroy()], the timer, the handlers of the promise chain and the pump
    leave them as they are. *)
Theorem only_load_binds (w w' : World) (e : Event) :
  step w e = Some w' ->
  (forall ctx lcfg cbs now, e <> Load ctx lcfg cbs now) ->
  context (loader w') = context (loader w)
  /\ config (loader w') = config (loader w)
  /\ callbacks (loader w') = callbacks (loader w)
  /\ request (loader w') = request (loader w)
  /\ requestTimeout (loader w') = requestTimeout (loader w)
  /\ trequest (stats (loader w')) = trequest (stats (loader w)).
Proof.
  intros Hstep Hnl.
  destruct e; try (exfalso; eapply Hnl; reflexivity);
    step_inv Hstep; handlers;
    (split; [reflexivity |]); (split; [reflexivity |]);
    (split; [reflexivity |]); (split; [reflexivity |]);
    split; reflexivity.
Qed.

Lemma only_load_binds_witness :
  requestTimeout (loader (after [load_seg; TimerFires 1%nat]))
  = requestTimeout (loader (after [load_seg])).
Proof.
  assert (H : step (after [load_seg]) (TimerFires 1%nat)
              = Some (after [load_seg; TimerFires 1%nat]))
    by (vm_compute; reflexivity).
  assert (Hnl : forall ctx lcfg cbs now,
            TimerFires 1%nat <> Load ctx lcfg cbs now)
    by (intros; discriminate).
  exact (proj1 (proj2 (proj2 (proj2 (proj2
           (only_load_binds _ _ _ H Hnl)))))).
Defined.

(* ================================================================== *)
(** ** Contexts and the pump *)

Lemma Forall_snoc {A : Type} (P : A -> Prop) (l : list A) (a : A) :
  Forall P l -> P a -> Forall P (l ++ [a]).
Proof. intros Hl Ha. apply Forall_app. split; [exact Hl | constructor; auto]. Qed.

Lemma count_snoc_other (p : Notification -> bool) (l : list Notification)
    (n : Notification) :
  p n = false -> count p (l ++ [n]) = count p l.
Proof.
  intros Hp. rewrite count_app. unfold count. simpl. rewrite Hp. simpl. lia.
Qed.

(** Closes one case of [step_CtxInv] once the chain is known to have
    started. *)
Ltac ctx_started Hinv :=
  let c0 := fresh "c0" in
  let Hc0 := fresh "Hc0" in
  let Hctx := fresh "Hctx" in
  let Hcbs := fresh "Hcbs" in
  let Hall := fresh "Hall" in
  let Hpump := fresh "Hpump" in
  destruct Hinv as (c0 & Hc0 & Hctx & Hcbs & Hall & Hpump);
  try (injection Hc0 as <-);
  eexists; split; [eassumption || reflexivity |];
  rewrite ?Hcbs, ?Hctx;
  split; [reflexivity || assumption |];
  split; [reflexivity || assumption |];
  split;
  [ repeat match goal with
           | |- context [match ?x with _ => _ end] => destruct x
           end;
    rewrite ?app_nil_r;
    first [ assumption
          | apply Forall_snoc; [assumption | reflexivity || assumption] ]
  | let Hnone := fresh "Hnone" in
    intros Hnone; destruct (Hpump Hnone) as (Hp1 & Hp2);
    rewrite ?Hnone;
    repeat match goal with
           | |- context [match ?x with _ => _ end] => destruct x
           end;
    rewrite ?app_nil_r, ?count_snoc_other by reflexivity;
    try (split; assumption); try congruence ].

Lemma step_CtxInv (w w' : World) (e : Event) :
  CtxInv w -> step w e = Some w' -> CtxInv w'.
Proof.
  unfold CtxInv. intros Hinv Hstep.
  destruct e; step_inv Hstep; handlers;
    try match goal with
        | |- match chain w with _ => _ end =>
            destruct (chain w) eqn:Hch;
            [destruct Hinv as (Hl & Hc & Hcb & Hp);
             rewrite ?Hcb, ?app_nil_r; try congruence; auto | | |]
        end;
    try (ctx_started Hinv; fail).
  - destruct Hinv as (Hl & Hc & Hcb & Hp). rewrite Hl.
    eexists. repeat (split; [reflexivity |]).
    split; [constructor |]. intros _. split; [exact Hp | reflexivity].
  - destruct Hinv as (c0 & Hc0 & Hctx & Hcbs & Hall & Hpump).
    injection Hc0 as <-.
    exists c. repeat (split; [reflexivity || assumption |]).
    assert (Hs : Forall (fun n => ctx_of n = Some (c_context c))
                   (log w ++
                    [OnSuccess (resp_url r) d
                       (set_loaded (Num (payload_length d))
                          (set_total (Num (payload_length d))
                             (set_tload
                                (Math_max (Num now)
                                   (tfirst (stats (loader w))))
                                (stats (loader w)))))
                       (c_context c) r])%list)
      by (apply Forall_snoc; [assumption | reflexivity]).
    split.
    + destruct (aborted (stats (loader w))); rewrite ?app_nil_r;
        [exact Hs | apply Forall_snoc; [exact Hs | reflexivity]].
    + intros Hnone. destruct (Hpump Hnone) as (Hp1 & Hp2).
      split; [exact Hp1 |].
      destruct (aborted (stats (loader w)));
        rewrite ?app_nil_r, ?count_snoc_other by reflexivity; exact Hp2.
Qed.

Lemma boot_CtxInv (cfg : HlsConfig) : CtxInv (boot cfg).
Proof. repeat split. Qed.

Lemma run_CtxInv (cfg : HlsConfig) (tr : list Event) (w : World) :
  run (boot cfg) tr = Some w -> CtxInv w.
Proof.
  intros Hrun.
  apply (run_preserves CtxInv (fun _ => True)
           (fun w e w' _ => step_CtxInv w w' e) tr (boot cfg) w);
    auto using Forall_any, boot_CtxInv.
Qed.

(** Every callback of a load is called with the context that was given to
    [load]: after [load(ctx, ..)], whatever the events, each call in the
    log carries [ctx]. *)
Theorem callbacks_get_the_context (cfg : HlsConfig) (ctx : LoaderContext)
    (lcfg : LoaderConfiguration) (cbs : LoaderCallbacks) (now : Z)
    (tr : list Event) (w : World) :
  run (boot cfg) (Load ctx lcfg cbs now :: tr) = Some w ->
  Forall (fun n => ctx_of n = Some ctx) (log w).
Proof.
  intros Hrun.
  pose proof (run_CtxInv cfg _ w Hrun) as Hinv.
  simpl in Hrun.
  assert (Hne0 : chain (load ctx lcfg cbs now (boot cfg)) <> NoRequest)
    by (simpl; discriminate).
  destruct (run_bound tr _ w Hne0 Hrun) as (Hb & Hne).
  unfold bound in Hb. simpl in Hb. injection Hb as Hc _ _ _ _ _ _ _.
  unfold CtxInv in Hinv.
  destruct (chain w); [contradiction Hne; reflexivity | | |];
    destruct Hinv as (c & _ & Hctx & _ & Hall & _);
    rewrite Hc in Hctx; injection Hctx as ->; exact Hall.
Qed.

Lemma callbacks_get_the_context_witness :
  Forall (fun n => ctx_of n = Some seg_context)
    (log (after [load_seg; Fulfilled (resp 200 "OK" []) 60;
                 Chunk (zeros 3); Decoded (ArrayBuffer (zeros 3)) 70;
                 Abort])).
Proof.
  apply (callbacks_get_the_context default_config seg_context cfg5000
           all_callbacks 10
           [Fulfilled (resp 200 "OK" []) 60; Chunk (zeros 3);
            Decoded (ArrayBuffer (zeros 3)) 70; Abort]).
  vm_compute. reflexivity.
Defined.

(** Progress is reported only to a registered [onProgress]: when [load]
    was called without it, the pump is never started, no chunk is ever
    read and [onProgress] is never called. *)
Theorem no_pump_without_onProgress (cfg : HlsConfig) (ctx : LoaderContext)
    (lcfg : LoaderConfiguration) (cbs : LoaderCallbacks) (now : Z)
    (tr : list Event) (w : World) :
  onProgress cbs = None ->
  run (boot cfg) (Load ctx lcfg cbs now :: tr) = Some w ->
  pump_response w = None
  /\ count is_progress (log w) = 0%nat
  /\ forall v, step w (Chunk v) = None.
Proof.
  intros Hnone Hrun.
  pose proof (run_CtxInv cfg _ w Hrun) as Hinv.
  simpl in Hrun.
  assert (Hne0 : chain (load ctx lcfg cbs now (boot cfg)) <> NoRequest)
    by (simpl; discriminate).
  destruct (run_bound tr _ w Hne0 Hrun) as (Hb & Hne).
  unfold bound in Hb. simpl in Hb. injection Hb as _ _ Hk _ _ _ _ _.
  assert (Hp : pump_response w = None
               /\ count is_progress (log w) = 0%nat).
  { unfold CtxInv in Hinv.
    destruct (chain w); [contradiction Hne; reflexivity | | |];
      destruct Hinv as (c & _ & _ & Hcbs & _ & Hpump);
      apply Hpump; rewrite Hk in Hcbs; injection Hcbs as <-; exact Hnone. }
  destruct Hp as (Hp1 & Hp2). repeat split; try assumption.
  intros v. simpl. rewrite Hp1. reflexivity.
Qed.

Lemma no_pump_without_onProgress_witness :
  count is_progress
    (log (after [Load seg_context cfg5000
                   {| onSuccess := Returns; onProgress := None;
                      onError := Returns; onTimeout := Returns;
                      onAbort := None |} 10;
                 Fulfilled (resp 200 "OK" []) 60;
                 Decoded (ArrayBuffer (zeros 3)) 70])) = 0%nat.
Proof.
  apply (no_pump_without_onProgress default_config seg_context cfg5000
           {| onSuccess := Returns; onProgress := None;
              onError := Returns; onTimeout := Returns;
              onAbort := None |} 10
           [Fulfilled (resp 200 "OK" []) 60;
            Decoded (ArrayBuffer (zeros 3)) 70]).
  - reflexivity.
  - vm_compute. reflexivity.
Defined.


(* ================================================================== *)
(** ** The abort flags and the schedule *)

Lemma without_length (i : TimerId) (l : list TimerId) :
  (List.length (without i l) <= List.length l)%nat.
Proof. unfold without. apply filter_length_le. Qed.

Lemma cleared_length (id : option TimerId) (l : list TimerId) :
  (List.length (cleared id l) <= List.length l)%nat.
Proof. destruct id; simpl; [apply without_length | lia]. Qed.

Ltac cleared_bounds :=
  repeat match goal with
         | |- context [cleared ?i ?l] =>
             lazymatch goal with
             | H : (List.length (cleared i l) <= List.length l)%nat |- _ =>
                 fail
             | _ => pose proof (cleared_length i l)
             end
         end.

Lemma step_FlagInv (w w' : World) (e : Event) :
  TimerInv w -> FlagInv w -> step w e = Some w' -> FlagInv w'.
Proof.
  intros (Hidle & _ & _) (Hab & Hlen) Hstep. unfold FlagInv.
  destruct e; step_inv Hstep; handlers;
    (split; [reflexivity || exact Hab | ]);
    try exact Hlen; try (cleared_bounds; lia).
  - rewrite Hidle by reflexivity. simpl. lia.
  - pose proof (without_length id (timers w)). lia.
Qed.

Lemma boot_FlagInv (cfg : HlsConfig) : FlagInv (boot cfg).
Proof. split; [reflexivity | simpl; lia]. Qed.

Lemma run_FlagInv (cfg : HlsConfig) (tr : list Event) (w : World) :
  run (boot cfg) tr = Some w -> FlagInv w.
Proof.
  intros Hrun.
  assert (H : TimerInv w /\ FlagInv w).
  { apply (run_preserves (fun w => TimerInv w /\ FlagInv w) (fun _ => True))
      with (tr := tr) (w := boot cfg); auto using Forall_any.
    - intros w0 e w1 _ (HT & HF) Hstep.
      split; [apply (step_TimerInv w0 w1 e HT Hstep)
             | apply (step_FlagInv w0 w1 e HT HF Hstep)].
    - split; [apply boot_TimerInv | apply boot_FlagInv]. }
  apply H.
Qed.

(** [stats.aborted] and the controller's signal go together: in every
    world a loader reaches they are equal.  The flag is never reset, and
    only [abort()], [destroy()] and the timeout set it: success and error
    leave it as it is. *)
Theorem aborted_flag (cfg : HlsConfig) (tr : list Event) (w : World) :
  run (boot cfg) tr = Some w ->
  aborted (stats (loader w)) = ctl_aborted (controller (loader w))
  /\ forall e w',
       step w e = Some w' ->
       (aborted (stats (loader w)) = true ->
        aborted (stats (loader w')) = true)
       /\ (aborted (stats (loader w)) = false ->
           aborted (stats (loader w')) = true ->
           e = Abort \/ e = Destroy \/ exists id, e = TimerFires id).
Proof.
  intros Hrun. split; [apply (run_FlagInv cfg tr w Hrun) |].
  intros e w' Hstep. split.
  - intros Ha. apply (step_aborted w w' e Ha Hstep).
  - intros Hf Ht.
    destruct e; eauto; step_inv Hstep; revert Ht; handlers; congruence.
Qed.

Lemma aborted_flag_witness :
  aborted (stats (loader (after [load_seg; TimerFires 1%nat])))
  = ctl_aborted (controller (loader (after [load_seg; TimerFires 1%nat]))).
Proof.
  apply (aborted_flag default_config [load_seg; TimerFires 1%nat]).
  vm_compute. reflexivity.
Defined.

(** At most one timeout is pending at any time, and it is the one whose
    identifier [load] stored in [this.requestTimeout]; none is pending
    before [load]. *)
Theorem one_timer_pending (cfg : HlsConfig) (tr : list Event) (w : World) :
  run (boot cfg) tr = Some w ->
  (List.length (timers w) <= 1)%nat
  /\ (forall id, In id (timers w) -> requestTimeout (loader w) = Some id)
  /\ (chain w = NoRequest -> timers w = []).
Proof.
  intros Hrun.
  destruct (run_Reachable cfg tr w Hrun) as ((Hidle & Hown & _) & _ & _).
  destruct (run_FlagInv cfg tr w Hrun) as (_ & Hlen).
  auto.
Qed.

Lemma one_timer_pending_witness :
  (List.length (timers (after [load_seg; Abort])) <= 1)%nat.
Proof.
  apply (one_timer_pending default_config [load_seg; Abort]).
  vm_compute. reflexivity.
Defined.

(* ================================================================== *)
(** ** The progress pump *)

(** Each chunk the pump reads adds its length to [stats.loaded] and is
    reported to [onProgress]: from a world where the pump runs and
    [onProgress] returns, any sequence of chunks can be read, [loaded]
    grows by the total number of bytes and [onProgress] is called once per
    chunk; the chain, the timer, [stats.total] and the terminal callbacks
    are not touched. *)
Theorem pump_accumulates (vs : list (list Byte.byte)) (w : World)
    (c : Captured) (r : Response) (n : Z) :
  captured w = Some c ->
  onProgress (c_callbacks c) = Some Returns ->
  pump_response w = Some r ->
  loaded (stats (loader w)) = Num n ->
  exists w',
    run w (map Chunk vs) = Some w'
    /\ loaded (stats (loader w')) = Num (n + total_length vs)
    /\ count is_progress (log w')
       = (count is_progress (log w) + List.length vs)%nat
    /\ count is_terminal (log w') = count is_terminal (log w)
    /\ chain w' = chain w
    /\ timers w' = timers w
    /\ total (stats (loader w')) = total (stats (loader w))
    /\ escaped w' = escaped w.
Proof.
  revert w n. induction vs as [| v vs IH]; intros w n Hc Hp Hr Hl.
  - exists w. simpl. rewrite Z.add_0_r, Nat.add_0_r. repeat split; assumption.
  - simpl. rewrite Hr, Hc.
    assert (H1 : captured (on_chunk c r v w) = Some c)
      by (rewrite on_chunk_eq; exact Hc).
    assert (H2 : pump_response (on_chunk c r v w) = Some r)
      by (rewrite on_chunk_eq; simpl; rewrite Hp; exact Hr).
    assert (H3 : loaded (stats (loader (on_chunk c r v w)))
                 = Num (n + Z.of_nat (List.length v)))
      by (rewrite on_chunk_eq; simpl; rewrite Hl; reflexivity).
    destruct (IH (on_chunk c r v w) (n + Z.of_nat (List.length v))
                H1 Hp H2 H3)
      as (w' & Hrun & Hl' & Hn' & Ht' & Hch' & Htm' & Htot' & Hesc').
    exists w'. split; [exact Hrun |].
    rewrite Hl', Hn', Ht', Hch', Htm', Htot', Hesc', on_chunk_eq. simpl.
    rewrite Hp. counts.
    repeat split; try reflexivity; try lia. f_equal. lia.
Qed.

Lemma pump_accumulates_witness :
  exists w',
    run (after [load_seg; Fulfilled (resp 206 "" []) 60])
      (map Chunk [zeros 40; zeros 60]) = Some w'
    /\ loaded (stats (loader w')) = Num (0 + total_length [zeros 40; zeros 60]).
Proof.
  destruct (pump_accumulates [zeros 40; zeros 60]
              (after [load_seg; Fulfilled (resp 206 "" []) 60])
              {| c_context := seg_context; c_callbacks := all_callbacks;
                 c_isArrayBuffer := true |}
              (resp 206 "" []) 0)
    as (w' & H1 & H2 & _).
  - vm_compute. reflexivity.
  - reflexivity.
  - vm_compute. reflexivity.
  - vm_compute. reflexivity.
  - exists w'. split; assumption.
Defined.

(** An exception raised by [onProgress] ends the pump and nothing else: it
    is swallowed by the pump's own catch, so it neither leaves the loader
    nor reaches [onError], the chain and the timer go on, and no further
    chunk is read. *)
Theorem progress_exception_swallowed (w w' : World) (c : Captured)
    (e : JsError) (v : list Byte.byte) :
  captured w = Some c ->
  onProgress (c_callbacks c) = Some (Raises e) ->
  step w (Chunk v) = Some w' ->
  pump_response w' = None
  /\ escaped w' = escaped w
  /\ chain w' = chain w
  /\ timers w' = timers w
  /\ count is_terminal (log w') = count is_terminal (log w)
  /\ count is_progress (log w') = S (count is_progress (log w))
  /\ loaded (stats (loader w'))
     = plus (loaded (stats (loader w))) (Num (Z.of_nat (List.length v)))
  /\ forall v', step w' (Chunk v') = None.
Proof.
  intros Hc Hp Hstep. step_inv Hstep. injection Hc as <-.
  rewrite on_chunk_eq. simpl. rewrite Hp. counts.
  repeat split; try reflexivity; lia.
Qed.

Lemma progress_exception_swallowed_witness :
  pump_response
    (after [Load seg_context cfg5000 raising_progress 10;
            Fulfilled (resp 206 "" []) 60; Chunk (zeros 4)]) = None.
Proof.
  assert (H : step (after [Load seg_context cfg5000 raising_progress 10;
                           Fulfilled (resp 206 "" []) 60])
                (Chunk (zeros 4))
              = Some (after [Load seg_context cfg5000 raising_progress 10;
                             Fulfilled (resp 206 "" []) 60;
                             Chunk (zeros 4)]))
    by (vm_compute; reflexivity).
  refine (proj1 (progress_exception_swallowed _ _
                   {| c_context := seg_context;
                      c_callbacks := raising_progress;
                      c_isArrayBuffer := true |}
                   aborted_error _ _ _ H));
    vm_compute; reflexivity.
Defined.

(* ================================================================== *)
(** ** How a load ends *)

(** After the chain has settled nothing of the terminal family is called
    any more. *)
Lemma settled_is_final (w : World) (tr : list Event) (w' : World) :
  TimerInv w -> chain w = Settled -> run w tr = Some w' ->
  count is_success (log w') = count is_success (log w)
  /\ count is_error (log w') = count is_error (log w)
  /\ count is_timeout (log w') = count is_timeout (log w).
Proof.
  intros HT Hs Hrun.
  destruct (run_settled tr w w' Hs Hrun) as (_ & H1 & H2).
  destruct (run_settled_timer tr w w' HT Hs Hrun) as (_ & H3).
  auto.
Qed.

(** An exception raised by [onSuccess] is caught by the chain's catch
    handler: on a load that is not aborted, [onError] is called with the
    code, message and details of what [onSuccess] raised, right after
    [onSuccess]; nothing leaves the loader. *)
Theorem success_exception_reported (cfg : HlsConfig) (tr : list Event)
    (w w' : World) (c : Captured) (e : JsError) (d : ResponseData)
    (now : Z) :
  run (boot cfg) tr = Some w ->
  captured w = Some c ->
  onSuccess (c_callbacks c) = Raises e ->
  onError (c_callbacks c) = Returns ->
  aborted (stats (loader w)) = false ->
  step w (Decoded d now) = Some w' ->
  exists r,
    response (loader w) = Some r
    /\ log w' = (log w ++ [OnSuccess (resp_url r) d (stats (loader w'))
                             (c_context c) r;
                           OnError (code e) (message e) (c_context c)
                             (details e)])%list
    /\ chain w' = Settled
    /\ escaped w' = escaped w.
Proof.
  intros Hrun Hc Hs He Hab Hstep.
  destruct (run_Reachable cfg tr w Hrun) as (_ & _ & (Hresp & _)).
  step_inv Hstep. injection Hc as <-.
  destruct (Hresp eq_refl) as (r0 & Hr0).
  handlers; try congruence.
  injection Hs as <-.
  rewrite Hab, He, <- app_assoc, app_nil_r. simpl.
  exists r. repeat split.
Qed.

Lemma success_exception_reported_witness :
  exists r,
    response (loader (after [Load seg_context cfg5000 raising_success 10;
                             Fulfilled (resp 200 "OK" []) 60])) = Some r
    /\ map is_terminal
         (log (after [Load seg_context cfg5000 raising_success 10;
                      Fulfilled (resp 200 "OK" []) 60;
                      Decoded (ArrayBuffer (zeros 3)) 70]))
       = [true; true].
Proof.
  assert (H1 : run (boot default_config)
                 [Load seg_context cfg5000 raising_success 10;
                  Fulfilled (resp 200 "OK" []) 60]
               = Some (after [Load seg_context cfg5000 raising_success 10;
                              Fulfilled (resp 200 "OK" []) 60]))
    by (vm_compute; reflexivity).
  assert (H2 : step (after [Load seg_context cfg5000 raising_success 10;
                            Fulfilled (resp 200 "OK" []) 60])
                 (Decoded (ArrayBuffer (zeros 3)) 70)
               = Some (after [Load seg_context cfg5000 raising_success 10;
                              Fulfilled (resp 200 "OK" []) 60;
                              Decoded (ArrayBuffer (zeros 3)) 70]))
    by (vm_compute; reflexivity).
  destruct (success_exception_reported default_config _ _ _
              {| c_context := seg_context; c_callbacks := raising_success;
                 c_isArrayBuffer := true |}
              boom (ArrayBuffer (zeros 3)) 70 H1
              ltac:(vm_compute; reflexivity) eq_refl eq_refl
              ltac:(vm_compute; reflexivity) H2)
    as (r & Hr & Hlog & _).
  exists r. split; [exact Hr |]. rewrite Hlog.
  rewrite map_app. vm_compute. reflexivity.
Defined.

(** A rejection of the pending promise (transport failure, decode failure)
    settles the load: the timer is cleared, the stats are left as they
    are, and [onError] is called once with the code, message and details
    of the error, unless the load was marked aborted, in which case the
    rejection is swallowed.  Nothing of the terminal family is called
    afterwards. *)
Theorem rejection_reported (cfg : HlsConfig) (tr : list Event)
    (w w' : World) (e : JsError) :
  run (boot cfg) tr = Some w ->
  step w (Rejected e) = Some w' ->
  exists c,
    captured w = Some c
    /\ (aborted (stats (loader w)) = false ->
        log w' = (log w ++ [OnError (code e) (message e) (c_context c)
                              (details e)])%list)
    /\ (aborted (stats (loader w)) = true ->
        log w' = log w /\ escaped w' = escaped w)
    /\ chain w' = Settled
    /\ timers w' = []
    /\ stats (loader w') = stats (loader w)
    /\ forall tr' w'',
         run w' tr' = Some w'' ->
         count is_success (log w'') = count is_success (log w')
         /\ count is_error (log w'') = count is_error (log w')
         /\ count is_timeout (log w'') = count is_timeout (log w').
Proof.
  intros Hrun Hstep.
  destruct (run_Reachable cfg tr w Hrun) as (HT & _ & _).
  pose proof (step_TimerInv w w' _ HT Hstep) as HT'.
  assert (Hs : chain w' = Settled)
    by (step_inv Hstep; rewrite on_catch_eq; reflexivity).
  assert (Hfinal : forall tr' w'',
             run w' tr' = Some w'' ->
             count is_success (log w'') = count is_success (log w')
             /\ count is_error (log w'') = count is_error (log w')
             /\ count is_timeout (log w'') = count is_timeout (log w'))
    by (intros tr' w'' Hr; apply (settled_is_final w' tr' w'' HT' Hs Hr)).
  assert (Ht : timers w' = []) by (destruct HT' as (_ & _ & Hn); auto).
  clear HT'. revert Hs Hfinal Ht.
  step_inv Hstep; rewrite on_catch_eq; simpl; intros _ Hfinal Ht;
    exists c; (split; [reflexivity |]);
    (split; [intros Ha; rewrite Ha; reflexivity |]);
    (split; [intros Ha; rewrite Ha, !app_nil_r; split; reflexivity |]);
    auto.
Qed.

Lemma rejection_reported_witness :
  chain (after [load_seg; Rejected boom]) = Settled.
Proof.
  assert (H1 : run (boot default_config) [load_seg]
               = Some (after [load_seg]))
    by (vm_compute; reflexivity).
  assert (H2 : step (after [load_seg]) (Rejected boom)
               = Some (after [load_seg; Rejected boom]))
    by (vm_compute; reflexivity).
  destruct (rejection_reported _ _ _ _ _ H1 H2)
    as (c & _ & _ & _ & Hs & _).
  exact Hs.
Defined.

(** A success ends the load: when the payload is decoded and [onSuccess]
    returns, [onSuccess] is called once with the URL of the response, the
    payload and the final stats, the chain is settled, the timer is
    cleared, and neither [onError] nor [onTimeout] nor a second
    [onSuccess] is called afterwards, whatever happens. *)
Theorem success_is_final (cfg : HlsConfig) (tr : list Event)
    (w w' : World) (c : Captured) (d : ResponseData) (now : Z) :
  run (boot cfg) tr = Some w ->
  captured w = Some c ->
  onSuccess (c_callbacks c) = Returns ->
  step w (Decoded d now) = Some w' ->
  (exists r,
     response (loader w) = Some r
     /\ log w' = (log w ++ [OnSuccess (resp_url r) d (stats (loader w'))
                              (c_context c) r])%list)
  /\ chain w' = Settled
  /\ timers w' = []
  /\ escaped w' = escaped w
  /\ forall tr' w'',
       run w' tr' = Some w'' ->
       count is_success (log w'') = count is_success (log w')
       /\ count is_error (log w'') = count is_error (log w')
       /\ count is_timeout (log w'') = count is_timeout (log w').
Proof.
  intros Hrun Hc Hs Hstep.
  destruct (run_Reachable cfg tr w Hrun) as (HT & _ & (Hresp & _)).
  pose proof (step_TimerInv w w' _ HT Hstep) as HT'.
  assert (Hfacts : (exists r,
             response (loader w) = Some r
             /\ log w' = (log w ++ [OnSuccess (resp_url r) d
                                      (stats (loader w')) (c_context c) r])%list)
           /\ chain w' = Settled /\ escaped w' = escaped w).
  { step_inv Hstep. injection Hc as <-.
    destruct (Hresp eq_refl) as (r0 & Hr0).
    handlers; try congruence.
    split; [exists r; split; reflexivity | split; reflexivity]. }
  destruct Hfacts as (Hlog & Hch & Hesc).
  split; [exact Hlog |]. split; [exact Hch |].
  split; [destruct HT' as (_ & _ & Hn); auto |].
  split; [exact Hesc |].
  intros tr' w'' Hr. apply (settled_is_final w' tr' w'' HT' Hch Hr).
Qed.

Lemma success_is_final_witness :
  timers (after [load_seg; Fulfilled (resp 200 "OK" []) 60;
                 Decoded (ArrayBuffer (zeros 3)) 70]) = [].
Proof.
  assert (H1 : run (boot default_config)
                 [load_seg; Fulfilled (resp 200 "OK" []) 60]
               = Some (after [load_seg; Fulfilled (resp 200 "OK" []) 60]))
    by (vm_compute; reflexivity).
  assert (H2 : step (after [load_seg; Fulfilled (resp 200 "OK" []) 60])
                 (Decoded (ArrayBuffer (zeros 3)) 70)
               = Some (after [load_seg; Fulfilled (resp 200 "OK" []) 60;
                              Decoded (ArrayBuffer (zeros 3)) 70]))
    by (vm_compute; reflexivity).
  exact (proj1 (proj2 (proj2
           (success_is_final default_config _ _ _
              {| c_context := seg_context; c_callbacks := all_callbacks;
                 c_isArrayBuffer := true |}
              _ _ H1 ltac:(vm_compute; reflexivity) eq_refl H2)))).
Defined.

(* ================================================================== *)
(** ** The timeout is a terminal outcome *)

Lemma count_terminal_split (l : list Notification) :
  count is_terminal l
  = (count is_success l + count is_error l + count is_timeout l)%nat.
Proof.
  unfold count. induction l as [| n l IH]; [reflexivity |].
  destruct n; simpl; rewrite ?IH; simpl; lia.
Qed.

(** With no timer scheduled on a started load, none is scheduled later and
    [onTimeout] is not called. *)
Lemma step_no_timer (w w' : World) (e : Event) :
  chain w <> NoRequest -> timers w = [] -> step w e = Some w' ->
  timers w' = []
  /\ count is_timeout (log w') = count is_timeout (log w).
Proof.
  intros Hne Hnil Hstep.
  destruct e; step_inv Hstep; handlers; counts;
    rewrite ?Hnil, ?cleared_nil in *;
    try (split; [reflexivity | lia]); try discriminate;
    try (contradiction Hne; reflexivity).
  - destruct (callbacks (loader w)) as [cbs |];
      [destruct (onAbort cbs) |]; simpl; split; auto; lia.
  - destruct (aborted (stats (loader w))); simpl; split; auto; lia.
  - destruct (aborted (stats (loader w))); simpl; split; auto; lia.
  - destruct (aborted (stats (loader w))); simpl; split; auto; lia.
  - destruct (aborted (stats (loader w))); simpl; split; auto; lia.
  - destruct (aborted (stats (loader w))); simpl; split; auto; lia.
  - destruct (aborted (stats (loader w))); simpl; split; auto; lia.
  - destruct (onProgress (c_callbacks c)); simpl; split; auto; lia.
Qed.

Lemma run_no_timer (tr : list Event) (w w' : World) :
  chain w <> NoRequest -> timers w = [] -> run w tr = Some w' ->
  timers w' = []
  /\ count is_timeout (log w') = count is_timeout (log w).
Proof.
  revert w. induction tr as [| e tr IH]; intros w Hne Hnil Hrun.
  - injection Hrun as <-. auto.
  - simpl in Hrun. destruct (step w e) as [w1 |] eqn:E; [| discriminate].
    destruct (step_no_timer w w1 e Hne Hnil E) as (Hn1 & Ht1).
    destruct (started_not_load w w1 e Hne E) as (_ & Hne1).
    destruct (IH w1 Hne1 Hn1 Hrun) as (Hn' & Ht').
    split; [exact Hn' | congruence].
Qed.

(** When the timer fires before the load has settled, [onTimeout] is the
    only terminal callback of the load: it is called once, and whatever
    follows (the rejection of the cancelled request, calls of [abort]),
    neither [onError] nor [onSuccess] nor a second [onTimeout] is
    called.  (For a request that carries the controller's signal and a
    caller whose [onSuccess] returns.) *)
Theorem timeout_is_final (cfg : HlsConfig) (tr : list Event)
    (w w1 : World) (id : TimerId) :
  keeps_signal (fetchSetup (constructor cfg)) ->
  Forall polite tr ->
  run (boot cfg) tr = Some w ->
  step w (TimerFires id) = Some w1 ->
  forall tr' w',
    run w1 tr' = Some w' ->
    count is_timeout (log w') = 1%nat
    /\ count is_error (log w') = 0%nat
    /\ count is_success (log w') = 0%nat.
Proof.
  intros Hk Hpol Hrun Hstep tr' w' Hrun'.
  destruct (run_counted cfg tr w Hk Hpol Hrun) as (HT & HS & HC).
  pose proof HT as (Hidle & Hown & _).
  pose proof (step_StaticInv w w1 (TimerFires id) I HS Hstep) as HS1.
  assert (Hne : chain w <> NoRequest).
  { intros Hch. specialize (Hidle Hch).
    step_inv Hstep. rewrite Hidle in *. discriminate. }
  destruct (started_not_load w w1 _ Hne Hstep) as (_ & Hne1).
  assert (H0 : count is_terminal (log w) = 0%nat).
  { destruct HC as [H0 | (_ & Ht & _)]; [exact H0 |].
    step_inv Hstep. rewrite Ht in *. discriminate. }
  rewrite count_terminal_split in H0.
  assert (Hw1 : aborted (stats (loader w1)) = true
                /\ timers w1 = []
                /\ count is_timeout (log w1) = S (count is_timeout (log w))
                /\ count is_error (log w1) = count is_error (log w)
                /\ count is_success (log w1) = count is_success (log w)).
  { step_inv Hstep. handlers. counts.
    repeat split; try lia. apply fired_owner; assumption. }
  destruct Hw1 as (Ha1 & Hn1 & Ht1 & He1 & Hs1).
  destruct (run_aborted tr' w1 w' HS1 Hne1 Ha1 Hrun') as (He & Hs).
  destruct (run_no_timer tr' w1 w' Hne1 Hn1 Hrun') as (_ & Ht).
  lia.
Qed.

Lemma timeout_is_final_witness :
  count is_timeout
    (log (after [load_seg; TimerFires 1%nat; Rejected aborted_error; Abort]))
  = 1%nat.
Proof.
  assert (H1 : run (boot default_config) [load_seg]
               = Some (after [load_seg]))
    by (vm_compute; reflexivity).
  assert (H2 : step (after [load_seg]) (TimerFires 1%nat)
               = Some (after [load_seg; TimerFires 1%nat]))
    by (vm_compute; reflexivity).
  assert (H3 : run (after [load_seg; TimerFires 1%nat])
                 [Rejected aborted_error; Abort]
               = Some (after [load_seg; TimerFires 1%nat;
                              Rejected aborted_error; Abort]))
    by (vm_compute; reflexivity).
  assert (H0 : Forall polite [load_seg]) by (repeat constructor).
  exact (proj1 (timeout_is_final default_config [load_seg] _ _ _
                  getRequest_keeps_signal H0 H1 H2 _ _ H3)).
Defined.

(** A loader that was aborted or destroyed before [load] stays cancelled:
    a load started on it afterwards never calls [onSuccess] or [onError].
    (For a request that carries the controller's signal and a caller
    whose [onSuccess] returns.) *)
Theorem aborted_before_load_is_silent (cfg : HlsConfig) (pre : list Event)
    (w0 : World) (ctx : LoaderContext) (lcfg : LoaderConfiguration)
    (cbs : LoaderCallbacks) (now : Z) (tr : list Event) (w : World) :
  keeps_signal (fetchSetup (constructor cfg)) ->
  onSuccess cbs = Returns ->
  run (boot cfg) pre = Some w0 ->
  chain w0 = NoRequest ->
  aborted (stats (loader w0)) = true ->
  run w0 (Load ctx lcfg cbs now :: tr) = Some w ->
  count is_success (log w) = 0%nat
  /\ count is_error (log w) = 0%nat.
Proof.
  intros Hk Hret Hpre Hch Ha Hrun.
  assert (Hpol : Forall polite pre).
  { clear Ha Hrun. revert Hpre Hch. generalize (boot cfg) as v.
    induction pre as [| e pre IH]; intros v Hpre Hch; [constructor |].
    simpl in Hpre. destruct (step v e) as [v1 |] eqn:E; [| discriminate].
    constructor; [| apply (IH v1 Hpre Hch)].
    destruct e; simpl; auto.
    exfalso. step_inv E.
    assert (Hne : chain (load ctx0 cfg0 cbs0 now0 v) <> NoRequest)
      by (simpl; discriminate).
    destruct (run_bound pre _ w0 Hne Hpre) as (_ & Hne'). contradiction. }
  destruct (run_counted cfg pre w0 Hk Hpol Hpre) as (_ & HS0 & _).
  pose proof (run_CtxInv cfg pre w0 Hpre) as HC0.
  unfold CtxInv in HC0. rewrite Hch in HC0. destruct HC0 as (Hlog & _).
  simpl in Hrun. rewrite Hch in Hrun.
  assert (Hstep : step w0 (Load ctx lcfg cbs now)
                  = Some (load ctx lcfg cbs now w0))
    by (simpl; rewrite Hch; reflexivity).
  pose proof (step_StaticInv w0 _ (Load ctx lcfg cbs now) Hret HS0 Hstep)
    as HS1.
  assert (Hne1 : chain (load ctx lcfg cbs now w0) <> NoRequest)
    by (simpl; discriminate).
  assert (Ha1 : aborted (stats (loader (load ctx lcfg cbs now w0))) = true)
    by (simpl; exact Ha).
  destruct (run_aborted tr _ w HS1 Hne1 Ha1 Hrun) as (He & Hs).
  rewrite He, Hs. simpl. rewrite Hlog. split; reflexivity.
Qed.

Lemma aborted_before_load_is_silent_witness :
  count is_error
    (log (after [Destroy; load_seg; Rejected aborted_error])) = 0%nat.
Proof.
  assert (H1 : run (boot default_config) [Destroy] = Some (after [Destroy]))
    by (vm_compute; reflexivity).
  assert (H2 : run (after [Destroy])
                 (Load seg_context cfg5000 all_callbacks 10
                  :: [Rejected aborted_error])
               = Some (after [Destroy; load_seg; Rejected aborted_error]))
    by (vm_compute; reflexivity).
  assert (H3 : chain (after [Destroy]) = NoRequest)
    by (vm_compute; reflexivity).
  assert (H4 : aborted (stats (loader (after [Destroy]))) = true)
    by (vm_compute; reflexivity).
  assert (H5 : onSuccess all_callbacks = Returns) by reflexivity.
  exact (proj2 (aborted_before_load_is_silent default_config [Destroy]
                  (after [Destroy]) seg_context cfg5000 all_callbacks 10
                  [Rejected aborted_error] _
                  getRequest_keeps_signal H5 H1 H3 H4 H2)).
Defined.

(* ================================================================== *)
(** ** Content-Length *)

Lemma read_digits_uint (d : Decimal.uint) (acc : Z) :
  read_digits 10 (Some acc) (NilEmpty.string_of_uint d)
  = Some (uint_value d acc).
Proof.
  revert acc. induction d; intros acc; simpl;
    [reflexivity | apply IHd ..].
Qed.

Lemma uint_value_acc (d : Decimal.uint) (p : positive) :
  Zpos (Pos.of_uint_acc d p) = uint_value d (Zpos p).
Proof.
  revert p. induction d; intros p;
    cbn [Pos.of_uint_acc uint_value]; rewrite ?IHd;
    try reflexivity; f_equal; lia.
Qed.

Lemma uint_value_of_uint (d : Decimal.uint) :
  Z.of_N (Pos.of_uint d) = uint_value d 0.
Proof.
  induction d; cbn [Pos.of_uint uint_value Z.of_N];
    try reflexivity; try exact IHd;
    rewrite uint_value_acc; reflexivity.
Qed.

Lemma parseInt_digits (d : Decimal.uint) :
  d <> Decimal.Nil ->
  parseInt (NilEmpty.string_of_uint d) = Num (round_double (uint_value d 0)).
Proof.
  intros Hd. destruct d as [| d | d | d | d | d | d | d | d | d | d];
    [contradiction Hd; reflexivity | destruct d | | | | | | | | |];
    try reflexivity;
    unfold parseInt; cbn -[read_digits uint_value round_double];
    cbn -[round_double];
    rewrite read_digits_uint; reflexivity.
Qed.

Lemma to_uint_not_nil (p : positive) : Pos.to_uint p <> Decimal.Nil.
Proof.
  intros H.
  pose proof (DecimalPos.Unsigned.of_to p) as Hp.
  rewrite H in Hp. discriminate.
Qed.

(** [parseInt] reads back the decimal digits [String] writes, for a safe
    integer that is not negative. *)
Lemma parseInt_String_of_number (n : Z) :
  0 <= n -> safe_integer n -> parseInt (String_of_number n) = Num n.
Proof.
  intros Hn Hsafe. unfold String_of_number.
  destruct n as [| p | p]; [reflexivity | | lia].
  cbn [Z.to_int NilZero.string_of_int].
  unfold NilZero.string_of_uint.
  pose proof (to_uint_not_nil p) as Hnil.
  assert (Hexact : round_double (Z.pos p) = Z.pos p)
    by (apply round_double_exact; unfold safe_integer in Hsafe; lia).
  destruct (Pos.to_uint p) eqn:E; [contradiction Hnil; reflexivity | ..];
    rewrite parseInt_digits by discriminate;
    rewrite <- E, <- uint_value_of_uint, DecimalPos.Unsigned.of_to;
    cbn [Z.of_N]; rewrite Hexact; reflexivity.
Qed.

(** Beyond 2^53 the number read is the nearest double, not the digits. *)
Example parseInt_rounds :
  parseInt "9007199254740993" = Num 9007199254740992.
Proof. vm_compute. reflexivity. Qed.

(** When the response is received with a success status, [stats.total] is
    what [parseInt] reads in the [Content-Length] header, looked up
    without regard to case: 0 when the header is missing or empty, [n]
    when it holds the decimal digits of a safe integer [n], the nearest
    double beyond, [NaN] when it does not start with a digit;
    [stats.loaded] is left as it was.  The payload is then awaited, unless
    [onProgress] is registered and the response has no body: reading the
    body's reader raises, the chain is settled through the [catch] handler
    and [onError] is called with no code and no details when the load is
    not aborted. *)
Theorem total_from_content_length (w w' : World) (r : Response) (now : Z) :
  step w (Fulfilled r now) = Some w' ->
  ok r = true ->
  total (stats (loader w'))
  = parseInt (or_default (header_value r "Content-Length") "0")
  /\ (values_of (resp_headers r) "content-length" = [] ->
      total (stats (loader w')) = Num 0)
  /\ (values_of (resp_headers r) "content-length" = [""] ->
      total (stats (loader w')) = Num 0)
  /\ (forall n, 0 <= n -> safe_integer n ->
        values_of (resp_headers r) "content-length" = [String_of_number n] ->
        total (stats (loader w')) = Num n)
  /\ loaded (stats (loader w')) = loaded (stats (loader w))
  /\ exists c,
       captured w = Some c
       /\ (reader_ok c r = true ->
           chain w' = AwaitBody /\ log w' = log w)
       /\ (reader_ok c r = false ->
           chain w' = Settled
           /\ exists text,
                log w'
                = (log w ++ (if aborted (stats (loader w)) then []
                             else [OnError None text (c_context c) None]))%list).
Proof.
  intros Hstep Hok. step_inv Hstep. unfold caught.
  assert (Hv : header_value r "Content-Length"
               = match values_of (resp_headers r) "content-length" with
                 | [] => None
                 | vs => Some (String.concat ", " vs)
                 end) by reflexivity.
  assert (Hread : forall n, 0 <= n -> safe_integer n ->
            values_of (resp_headers r) "content-length" = [String_of_number n] ->
            parseInt (or_default (header_value r "Content-Length") "0")
            = Num n).
  { intros n Hn Hsafe Hvs. rewrite Hv, Hvs. simpl.
    pose proof (parseInt_String_of_number n Hn Hsafe) as Hback.
    destruct (String_of_number n) eqn:Es; [discriminate Hback | exact Hback]. }
  destruct (reader_ok c r) eqn:Hrd.
  - rewrite (then_response_ok c r now w Hok Hrd). simpl.
    split; [reflexivity |].
    split; [intros Hvs; rewrite Hv, Hvs; reflexivity |].
    split; [intros Hvs; rewrite Hv, Hvs; reflexivity |].
    split; [exact Hread |].
    split; [reflexivity |].
    exists c. split; [reflexivity |].
    rewrite Hrd. split; [intros _; split; reflexivity | discriminate].
  - rewrite (then_response_null c r now w Hok Hrd). simpl.
    rewrite on_catch_eq. simpl.
    split; [reflexivity |].
    split; [intros Hvs; rewrite Hv, Hvs; reflexivity |].
    split; [intros Hvs; rewrite Hv, Hvs; reflexivity |].
    split; [exact Hread |].
    split; [reflexivity |].
    exists c. split; [reflexivity |].
    rewrite Hrd. split; [discriminate |].
    intros _. split; [reflexivity |].
    exists "Cannot read properties of null". reflexivity.
Qed.

Lemma total_from_content_length_witness :
  total (stats (loader
    (after [load_seg;
            Fulfilled (resp 206 "" [("content-LENGTH", "100")]) 60])))
  = Num 100.
Proof.
  assert (H : step (after [load_seg])
                (Fulfilled (resp 206 "" [("content-LENGTH", "100")]) 60)
              = Some (after [load_seg;
                   Fulfilled (resp 206 "" [("content-LENGTH", "100")]) 60]))
    by (vm_compute; reflexivity).
  assert (Hsafe : safe_integer 100) by (unfold safe_integer; simpl; lia).
  exact (proj1 (proj2 (proj2 (proj2
           (total_from_content_length _ _ _ _ H eq_refl)))) 100
           ltac:(lia) Hsafe eq_refl).
Defined.

(** A 204 on a load with [onProgress]: no payload is awaited, [onError] is
    called. *)
Example no_content_with_progress :
  let w := after [load_seg; Fulfilled (resp_no_body 204 "No Content" []) 60] in
  chain w = Settled
  /\ log w = [OnError None "Cannot read properties of null" seg_context None]
  /\ timers w = [].
Proof. vm_compute. repeat split. Qed.

Example total_rounded :
  total (stats (loader
    (after [load_seg;
            Fulfilled (resp 200 "" [("Content-Length", "9007199254740993")])
              60])))
  = Num 9007199254740992.
Proof. vm_compute. reflexivity. Qed.

Example total_not_a_number :
  total (stats (loader
    (after [load_seg; Fulfilled (resp 200 "" [("Content-Length", "n/a")]) 60])))
  = NaN.
Proof. vm_compute. reflexivity. Qed.

(* ================================================================== *)
(** ** Edge cases *)

(** Before [load], [abort()] raises a [TypeError]: it reads [onAbort] of
    [this.callbacks], which is not assigned yet.  The loader is marked
    aborted all the same and no callback is called; [destroy()] does not
    raise there. *)
Theorem abort_before_load (cfg : HlsConfig) (tr : list Event) (w : World) :
  run (boot cfg) tr = Some w ->
  chain w = NoRequest ->
  exists w',
    step w Abort = Some w'
    /\ escaped w'
       = (escaped w ++ [TypeError "Cannot read properties of undefined"])%list
    /\ log w' = []
    /\ aborted (stats (loader w')) = true
    /\ ctl_aborted (controller (loader w')) = true
    /\ chain w' = NoRequest
    /\ escaped (destroy w) = escaped w.
Proof.
  intros Hrun Hch.
  pose proof (run_CtxInv cfg tr w Hrun) as Hinv.
  unfold CtxInv in Hinv. rewrite Hch in Hinv.
  destruct Hinv as (Hlog & _ & Hcb & _).
  eexists. split; [reflexivity |].
  rewrite abort_eq. simpl. rewrite Hcb, Hlog. repeat split. exact Hch.
Qed.

Lemma abort_before_load_witness :
  exists w',
    step (after [Destroy]) Abort = Some w'
    /\ escaped w'
       = (escaped (after [Destroy])
          ++ [TypeError "Cannot read properties of undefined"])%list.
Proof.
  destruct (abort_before_load default_config [Destroy] (after [Destroy]))
    as (w' & H1 & H2 & _).
  - vm_compute. reflexivity.
  - vm_compute. reflexivity.
  - exists w'. split; assumption.
Defined.

(** The builder adds a [Range] header exactly when [rangeEnd] is present
    and not 0; the mode is always [cors] and the credentials
    [same-origin].  A range with an end (a safe integer) and no start
    yields the header [bytes=undefined-<rangeEnd-1>]. *)
Theorem request_parameters_shape (ctx : LoaderContext) (sig : AbortSignal) :
  mode (getRequestParameters ctx sig) = "cors"
  /\ credentials (getRequestParameters ctx sig) = "same-origin"
  /\ (headers (getRequestParameters ctx sig) <> None
      <-> exists e, rangeEnd ctx = Some e /\ e <> 0)
  /\ (forall e,
        rangeStart ctx = None -> rangeEnd ctx = Some e -> e <> 0 ->
        safe_integer e ->
        headers (getRequestParameters ctx sig)
        = Some [("Range", "bytes=undefined-" ++ String_of_number (e - 1))]).
Proof.
  destruct (getRequestParameters_fixed ctx sig) as (_ & Hm & Hc & _).
  split; [exact Hm |]. split; [exact Hc |]. split.
  - unfold getRequestParameters.
    destruct (rangeEnd ctx) as [e |] eqn:E; simpl.
    + destruct (Z.eqb_spec e 0) as [-> | Hne]; simpl; split.
      * intros H. contradiction H. reflexivity.
      * intros (e' & [= <-] & H). contradiction H. reflexivity.
      * intros _. exists e. split; [reflexivity | exact Hne].
      * intros _. discriminate.
    + split; [intros H; contradiction H; reflexivity |].
      intros (e' & H & _). discriminate.
  - intros e Hs He Hne Hsafe.
    rewrite (getRequestParameters_nonzero ctx sig e He Hne), Hs,
      (minus_one_exact e Hsafe).
    reflexivity.
Qed.

Lemma request_parameters_shape_witness :
  headers (getRequestParameters
             {| url := "https://x/seg.ts"; responseType := "arraybuffer";
                rangeStart := None; rangeEnd := Some 200 |} 0%nat)
  = Some [("Range", "bytes=undefined-199")].
Proof.
  apply (proj2 (proj2 (proj2 (request_parameters_shape
           {| url := "https://x/seg.ts"; responseType := "arraybuffer";
              rangeStart := None; rangeEnd := Some 200 |} 0%nat))) 200);
    [reflexivity | reflexivity | lia | unfold safe_integer; simpl; lia].
Defined.
